(** * couchdb.multipart: streamed reading and writing of MIME multipart

    A shallow embedding of [couchdb/multipart.py] (the generator
    [read_multipart] and the class [MultipartWriter]) together with the
    properties of the envelope reader and writer.

    Python 2 [str] values are byte strings; they are modelled by [string]
    (one [ascii] per byte).  Dictionaries with string keys are [gmap string
    string]. *)

From Stdlib Require Import Ascii.
From stdpp Require Import base option list gmap strings sorting pretty.

(** ** Python byte-string primitives used by the module *)

(** Characters removed by [str.strip()] with no argument. *)
Definition is_space (c : ascii) : bool := Ascii.is_space c.

Definition lower_char (c : ascii) : ascii :=
  let n := nat_of_ascii c in
  if (65 <=? n)%nat && (n <=? 90)%nat then ascii_of_nat (n + 32) else c.

(** [s.lower()] *)
Fixpoint lower (s : string) : string :=
  match s with
  | EmptyString => EmptyString
  | String c s' => String (lower_char c) (lower s')
  end.

(** [s.lstrip()] *)
Fixpoint lstrip (s : string) : string :=
  match s with
  | EmptyString => EmptyString
  | String c s' => if is_space c then lstrip s' else s
  end.

(** [s.rstrip()] *)
Fixpoint rstrip (s : string) : string :=
  match s with
  | EmptyString => EmptyString
  | String c s' =>
      match rstrip s' with
      | EmptyString => if is_space c then EmptyString else String c EmptyString
      | r => String c r
      end
  end.

(** [s.strip()] *)
Definition strip (s : string) : string := rstrip (lstrip s).

(** [s.split(sep, 1)]: a list of one element when [sep] does not occur,
    of two elements otherwise (cut at the first occurrence). *)
Fixpoint split1 (sep : ascii) (s : string) : list string :=
  match s with
  | EmptyString => [EmptyString]
  | String c s' =>
      if Ascii.eqb c sep then [EmptyString; s']
      else match split1 sep s' with
           | [a] => [String c a]
           | a :: rest => String c a :: rest
           | [] => []
           end
  end.

(** [s.startswith(p)] *)
Definition startswith (p s : string) : bool := String.prefix p s.

(** [s.endswith(suf)] *)
Fixpoint endswith (suf s : string) : bool :=
  String.eqb s suf ||
  match s with
  | EmptyString => false
  | String _ s' => endswith suf s'
  end.

(** [s[:-1]] *)
Fixpoint drop_last (s : string) : string :=
  match s with
  | EmptyString => EmptyString
  | String c s' =>
      match s' with
      | EmptyString => EmptyString
      | String _ _ => String c (drop_last s')
      end
  end.

(** [''.join(buf)] *)
Definition join (buf : list string) : string := String.concat EmptyString buf.

(** [s.find(c) >= 0] together with the two slices [s[:i]] and [s[i+1:]]
    around the first occurrence. *)
Fixpoint find_cut (c : ascii) (s : string) : option (string * string) :=
  match s with
  | EmptyString => None
  | String a s' =>
      if Ascii.eqb a c then Some (EmptyString, s')
      else match find_cut c s' with
           | Some (l, r) => Some (String a l, r)
           | None => None
           end
  end.

(** [s.replace(a ++ b, r)] for a two-byte pattern and a one-byte
    replacement: non-overlapping occurrences, left to right. *)
Fixpoint replace2 (a b r : ascii) (s : string) : string :=
  match s with
  | EmptyString => EmptyString
  | String c1 s' =>
      match s' with
      | EmptyString => s
      | String c2 s'' =>
          if Ascii.eqb c1 a && Ascii.eqb c2 b then String r (replace2 a b r s'')
          else String c1 (replace2 a b r s')
      end
  end.

(** Iterating over a file object: the content cut after every line feed,
    a final unterminated line included. *)
Fixpoint iter_lines (s : string) : list string :=
  match s with
  | EmptyString => []
  | String c s' =>
      if Ascii.eqb c "010" then String c EmptyString :: iter_lines s'
      else match iter_lines s' with
           | [] => [String c EmptyString]
           | l :: ls => String c l :: ls
           end
  end.

(** [str(n)] for a length. *)
Definition str_of_nat (n : nat) : string := pretty n.

(** ** [cgi.parse_header] (Python 2 standard library, not part of the
    repository; transcribed from [Lib/cgi.py] of Python 2.7) *)

Definition dquote : ascii := "034".
Definition backslash : ascii := "092".

(** [_parseparam(';' + line)]: the pieces of [line] between semicolons that
    are not inside a double-quoted section, each stripped.  [prev_bs] tells
    whether the previous byte of the current piece was a backslash, [odd]
    whether an odd number of unescaped quotes was seen in it, [cur] is the
    piece read so far, reversed. *)
Fixpoint parseparam_go (s : string) (prev_bs odd : bool) (cur : string)
  : list string :=
  match s with
  | EmptyString => [strip (String.rev cur)]
  | String c s' =>
      if Ascii.eqb c ";" && negb odd
      then strip (String.rev cur) :: parseparam_go s' false false EmptyString
      else parseparam_go s' (Ascii.eqb c backslash)
             (if Ascii.eqb c dquote && negb prev_bs then negb odd else odd)
             (String c cur)
  end.

Definition _parseparam (line : string) : list string :=
  parseparam_go line false false EmptyString.

(** The unquoting step of [parse_header]: a value of at least two bytes
    that starts and ends with a double quote loses both quotes, and its
    backslash escapes are resolved. *)
Definition unquote (value : string) : string :=
  match value with
  | String c rest =>
      if Ascii.eqb c dquote && endswith (String dquote EmptyString) rest
      then replace2 backslash dquote dquote
             (replace2 backslash backslash backslash (drop_last rest))
      else value
  | EmptyString => value
  end.

Fixpoint parse_params (parts : list string) (pdict : gmap string string)
  : gmap string string :=
  match parts with
  | [] => pdict
  | p :: parts' =>
      match find_cut "=" p with
      | Some (n, v) =>
          parse_params parts' (<[lower (strip n) := unquote (strip v)]> pdict)
      | None => parse_params parts' pdict
      end
  end.

Definition parse_header (line : string) : string * gmap string string :=
  match _parseparam line with
  | key :: parts => (key, parse_params parts ∅)
  | [] => (EmptyString, ∅)
  end.

(** ** [read_multipart] *)

Definition EOL : string := String "013" (String "010" EmptyString).

(** One yielded tuple [(headers, is_multipart, payload)]; the payload is a
    string for a leaf and the sequence of nested parts otherwise.  The
    [headers] component is the content of the generator's dictionary at the
    moment of the [yield] (the generator hands out the dictionary object
    itself and clears it when it is resumed). *)
Inductive part :=
| Part (headers : gmap string string) (is_multipart : bool)
       (payload : string + list part).

Definition part_headers (p : part) : gmap string string :=
  match p with Part h _ _ => h end.
Definition part_is_multipart (p : part) : bool :=
  match p with Part _ m _ => m end.
Definition part_payload (p : part) : string + list part :=
  match p with Part _ _ x => x end.

(** Exceptions the generator can raise: [ValueError] from unpacking
    [line.split(':', 1)] into two names, [TypeError] from
    [parse_header(None)], [KeyError] from [params['boundary']]. *)
Inductive exn := ValueError | TypeError | KeyError.

(** The local variables of one activation of [read_multipart]. *)
Record frame := Frame {
  boundary : option string;
  headers : gmap string string;
  buf : list string;
  outer : bool;
  in_headers : bool
}.

Definition is_None {A} (o : option A) : bool :=
  match o with None => true | Some _ => false end.

Definition str_nonempty (s : string) : bool :=
  match s with EmptyString => false | String _ _ => true end.

(** [boundary and '--' + boundary + EOL or None] *)
Definition next_boundary (boundary : option string) : option string :=
  match boundary with
  | Some b => if str_nonempty b then Some ("--" +:+ b +:+ EOL) else None
  | None => None
  end.

(** [boundary and '--' + boundary + '--' + EOL or None] *)
Definition last_boundary (boundary : option string) : option string :=
  match boundary with
  | Some b => if str_nonempty b then Some ("--" +:+ b +:+ "--" +:+ EOL) else None
  | None => None
  end.

(** State on entry of the [for] loop. *)
Definition new_frame (boundary : option string) : frame :=
  Frame boundary ∅ [] (is_None boundary) (is_None boundary).

Definition _current_part (f : frame) : part :=
  let payload := join (buf f) in
  let payload := if endswith EOL payload then drop_last payload else payload in
  Part (headers f) false (inl payload).

(** [line == b] for a boundary line that may be [None]. *)
Definition line_is (line : string) (b : option string) : bool :=
  match b with
  | Some s => String.eqb line s
  | None => false
  end.

(** A dictionary is true when it is not empty. *)
Definition dict_true (h : gmap string string) : bool :=
  negb (bool_decide (h = ∅)).

(** What one iteration of the [for] loop does. *)
Inductive step :=
| Next (f : frame) (yielded : list part)
| Sub (f : frame) (sub_boundary : string)
| Break
| Raise (e : exn).

Definition loop_body (f : frame) (line : string) : step :=
  if in_headers f then
    if negb (String.eqb line EOL) then
      match split1 ":" line with
      | [name; value] =>
          Next (Frame (boundary f)
                      (<[strip (lower name) := strip value]> (headers f))
                      (buf f) (outer f) (in_headers f)) []
      | _ => Raise ValueError
      end
    else
      let f := Frame (boundary f) (headers f) (buf f) (outer f) false in
      match headers f !! "content-type" with
      | None => Raise TypeError
      | Some ct =>
          let '(mimetype, params) := parse_header ct in
          if startswith "multipart/" mimetype then
            match params !! "boundary" with
            | Some sub_boundary => Sub f sub_boundary
            | None => Raise KeyError
            end
          else Next f []
      end
  else if line_is line (next_boundary (boundary f)) then
    if dict_true (headers f) then
      if negb (outer f) then
        Next (Frame (boundary f) ∅ [] (outer f) true) [_current_part f]
      else
        Next (Frame (boundary f) ∅ [] false true) []
    else
      Next (Frame (boundary f) (headers f) (buf f) (outer f) true) []
  else if line_is line (last_boundary (boundary f)) then Break
  else Next (Frame (boundary f) (headers f) (buf f ++ [line]) (outer f)
                   (in_headers f)) [].

(** The statement after the loop: [if not outer and headers: yield ...]. *)
Definition after_loop (f : frame) : list part :=
  if negb (outer f) && dict_true (headers f) then [_current_part f] else [].

(** How an activation that created a nested generator goes on once that
    generator is exhausted: [headers.clear(); del buf[:]] after the
    [yield headers, True, sub_parts]. *)
Definition after_sub (f : frame) : frame :=
  Frame (boundary f) ∅ [] (outer f) (in_headers f).

(** How the generator stopped: normally, with the lines it left unread, or
    by an exception. *)
Inductive outcome := Done (rest : list string) | Raised (e : exn).

(** Suspended activations, innermost first, each with the parts it has
    yielded so far.  An activation is suspended while the nested sequence
    it created is being drained. *)
Definition callers := list (frame * list part).

(** The nested generator is exhausted after yielding [sub]: either all
    activations are finished, or one of them goes on reading. *)
Fixpoint resume (sub : list part) (cs : callers)
  : list part + (frame * list part * callers) :=
  match cs with
  | [] => inl sub
  | (f, ys) :: cs' =>
      if is_None (boundary f)
      then resume (ys ++ sub) cs'
      else inr (after_sub f, ys ++ [Part (headers f) true (inr sub)], cs')
  end.

(** The file is exhausted while nested generators are active: each
    suspended activation is resumed in turn and finds no line. *)
Fixpoint at_eof (sub : list part) (cs : callers) : list part :=
  match cs with
  | [] => sub
  | (f, ys) :: cs' =>
      if is_None (boundary f)
      then at_eof (ys ++ sub) cs'
      else at_eof (ys ++ [Part (headers f) true (inr sub)]
                      ++ after_loop (after_sub f)) cs'
  end.

(** An exception leaves the innermost generator: what the consumer holds. *)
Fixpoint unwind (sub : list part) (cs : callers) : list part :=
  match cs with
  | [] => sub
  | (f, ys) :: cs' =>
      if is_None (boundary f)
      then unwind (ys ++ sub) cs'
      else unwind (ys ++ [Part (headers f) true (inr sub)]) cs'
  end.

(** The generator run to exhaustion by a consumer that drains every nested
    sequence as soon as it receives it (as the docstring requires): all
    activations share the one cursor [fileobj]. *)
Fixpoint run (fileobj : list string) (f : frame) (ys : list part)
  (cs : callers) : list part * outcome :=
  match fileobj with
  | [] => (at_eof (ys ++ after_loop f) cs, Done [])
  | line :: rest =>
      match loop_body f line with
      | Next f' out => run rest f' (ys ++ out) cs
      | Sub f' sub_boundary =>
          run rest (new_frame (Some sub_boundary)) [] ((f', ys) :: cs)
      | Break =>
          match resume (ys ++ after_loop f) cs with
          | inl parts => (parts, Done rest)
          | inr (f', ys', cs') => run rest f' ys' cs'
          end
      | Raise e => (unwind ys cs, Raised e)
      end
  end.

Definition read_multipart (fileobj : list string) (boundary : option string)
  : list part * outcome :=
  run fileobj (new_frame boundary) [] [].

(** ** [MultipartWriter] *)

(** Dictionary objects are identified by their address, so that a
    dictionary passed by the caller and the one a method updates are the
    same object. *)
Definition loc := positive.

(** The state the writer acts on: what has been written to the shared
    [fileobj], the dictionary objects, and the tokens [uuid4().hex] returns
    (the [n]-th call returns [uuid4_hex n]). *)
Record world := World {
  sink : string;
  heap : gmap loc (gmap string string);
  uuid4_hex : nat → string;
  drawn : nat
}.

Definition M (A : Type) : Type := world → A * world.

Definition ret {A} (a : A) : M A := λ w, (a, w).
Definition bind {A B} (m : M A) (k : A → M B) : M B :=
  λ w, let (a, w') := m w in k a w'.

Notation "'let*' x ':=' m 'in' k" := (bind m (λ x, k))
  (at level 10, x name, m at level 100, k at level 200).
Notation "m ';;' k" := (bind m (λ _, k))
  (at level 100, k at level 200, right associativity).

(** [fileobj.write(s)] *)
Definition write (s : string) : M unit :=
  λ w, (tt, World (sink w +:+ s) (heap w) (uuid4_hex w) (drawn w)).

(** [{}] *)
Definition dict_new : M loc :=
  λ w, let l := fresh (dom (heap w)) in
       (l, World (sink w) (<[l := ∅]> (heap w)) (uuid4_hex w) (drawn w)).

(** The dictionary at [l]. *)
Definition dict_at (w : world) (l : loc) : gmap string string :=
  default ∅ (heap w !! l).

(** [d[k] = v] *)
Definition dict_setitem (l : loc) (k v : string) : M unit :=
  λ w, (tt, World (sink w) (<[l := <[k := v]> (dict_at w l)]> (heap w))
                  (uuid4_hex w) (drawn w)).

(** [d[k]] *)
Definition dict_getitem (l : loc) (k : string) : M string :=
  λ w, (default EmptyString (dict_at w l !! k), w).

(** [d.keys()], in the order the dictionary happens to enumerate them. *)
Definition keys (h : gmap string string) : list string := (map_to_list h).*1.

Definition dict_keys (l : loc) : M (list string) :=
  λ w, (keys (dict_at w l), w).

(** [sorted(names)]: byte-wise lexicographic order. *)
Definition sorted (names : list string) : list string :=
  merge_sort String.le names.

Fixpoint for_each {A} (l : list A) (body : A → M unit) : M unit :=
  match l with
  | [] => ret tt
  | x :: l' => body x ;; for_each l' body
  end.

Record writer := Writer { self_boundary : string }.

Definition _make_boundary : M string :=
  λ w, (uuid4_hex w (drawn w),
        World (sink w) (heap w) (uuid4_hex w) (S (drawn w))).

Definition _write_headers (headers : loc) : M unit :=
  let* names := dict_keys headers in
  (if negb (bool_decide (names = [])) then
     for_each (sorted names) (λ name,
       write name ;;
       write ": " ;;
       (let* v := dict_getitem headers name in write v) ;;
       write EOL)
   else ret tt) ;;
  write EOL.

Definition Q : string := String dquote EmptyString.

(** ['multipart/%s; boundary=<quote>%s<quote>' % (subtype, boundary)] *)
Definition envelope_content_type (subtype boundary : string) : string :=
  "multipart/" +:+ subtype +:+ "; boundary=" +:+ Q +:+ boundary +:+ Q.

(** [MultipartWriter.__init__] *)
Definition MultipartWriter (headers : option loc) (subtype : string)
  (boundary : option string) : M writer :=
  let* boundary := match boundary with
                   | None => _make_boundary
                   | Some b => ret b
                   end in
  let* headers := match headers with
                  | None => dict_new
                  | Some l => ret l
                  end in
  dict_setitem headers "Content-Type"
    (envelope_content_type subtype boundary) ;;
  _write_headers headers ;;
  ret (Writer boundary).

Definition open (self : writer) (headers : option loc) (subtype : string)
  (boundary : option string) : M writer :=
  write "--" ;;
  write (self_boundary self) ;;
  write EOL ;;
  MultipartWriter headers subtype boundary.

Definition add (self : writer) (mimetype content : string)
  (headers : option loc) : M unit :=
  write "--" ;;
  write (self_boundary self) ;;
  write EOL ;;
  let* headers := match headers with
                  | None => dict_new
                  | Some l => ret l
                  end in
  dict_setitem headers "Content-Type" mimetype ;;
  dict_setitem headers "Content-Length" (str_of_nat (String.length content)) ;;
  _write_headers headers ;;
  if str_nonempty content then
    write content ;;
    write EOL
  else ret tt.

Definition close (self : writer) : M unit :=
  write "--" ;;
  write (self_boundary self) ;;
  write "--" ;;
  write EOL.

Definition write_multipart (subtype : string) (boundary : option string)
  : M writer :=
  MultipartWriter None subtype boundary.

(** A fresh output file, no dictionary allocated yet. *)
Definition empty_world (uuids : nat → string) : world :=
  World EmptyString ∅ uuids 0.

(** The scenarios of the docstring of [write_multipart]. *)
Definition CR : string := String "013" EmptyString.

Definition flat_example : M unit :=
  let* envelope := write_multipart "mixed" (Some "==123456789==") in
  add envelope "text/plain" "Just testing" None ;;
  close envelope.

Definition nested_example : M unit :=
  let* envelope := write_multipart "mixed" (Some "==123456789==") in
  let* part := open envelope None "mixed" (Some "==abcdefghi==") in
  add part "text/plain" "Just testing" None ;;
  close part ;;
  close envelope.

(** What [print buf.getvalue()] shows in the docstring, with the line
    ends as written. *)
Definition flat_example_output : string :=
  "Content-Type: multipart/mixed; boundary=" +:+ Q +:+ "==123456789==" +:+ Q
    +:+ EOL +:+
  EOL +:+
  "--==123456789==" +:+ EOL +:+
  "Content-Length: 12" +:+ EOL +:+
  "Content-Type: text/plain" +:+ EOL +:+
  EOL +:+
  "Just testing" +:+ EOL +:+
  "--==123456789==--" +:+ EOL.

(** An envelope with boundary [B] preceded by one preamble line. *)
Definition preamble_example : list string :=
  [ "junk" +:+ EOL;
    "--B" +:+ EOL;
    "Content-Type: text/plain" +:+ EOL;
    EOL;
    "body" +:+ EOL;
    "--B--" +:+ EOL ].

(** A part cut off before its terminal boundary. *)
Definition truncated_example : list string :=
  [ "--B" +:+ EOL;
    "Content-Type: text/plain" +:+ EOL;
    EOL;
    "body" +:+ EOL ].

(** ** [couchdb.client.uri] *)

(** [urllib.quote(s)] with its default [safe='/'] (Python 2 standard
    library): letters, digits, underscore, dot, hyphen and slash are kept,
    every other byte becomes a percent sign and two upper-case hexadecimal
    digits. *)
Definition always_safe (c : ascii) : bool :=
  let n := nat_of_ascii c in
  ((65 <=? n)%nat && (n <=? 90)%nat) || ((97 <=? n)%nat && (n <=? 122)%nat) ||
  ((48 <=? n)%nat && (n <=? 57)%nat) ||
  Ascii.eqb c "_" || Ascii.eqb c "." || Ascii.eqb c "-".

Definition hex_digit (n : nat) : ascii :=
  if (n <? 10)%nat then ascii_of_nat (48 + n) else ascii_of_nat (55 + n).

Definition quote_char (c : ascii) : string :=
  if always_safe c || Ascii.eqb c "/" then String c EmptyString
  else String "%" (String (hex_digit (nat_of_ascii c / 16))
                     (String (hex_digit (nat_of_ascii c mod 16)) EmptyString)).

Fixpoint quote (s : string) : string :=
  match s with
  | EmptyString => EmptyString
  | String c s' => quote_char c +:+ quote s'
  end.

(** [unicode_quote] on a byte string. *)
Definition unicode_quote (s : string) : string := quote s.

(** [s.lstrip('/')], [s.rstrip('/')], [s.strip('/')] *)
Fixpoint lstrip_slash (s : string) : string :=
  match s with
  | EmptyString => EmptyString
  | String c s' => if Ascii.eqb c "/" then lstrip_slash s' else s
  end.

Fixpoint rstrip_slash (s : string) : string :=
  match s with
  | EmptyString => EmptyString
  | String c s' =>
      match rstrip_slash s' with
      | EmptyString => if Ascii.eqb c "/" then EmptyString
                       else String c EmptyString
      | r => String c r
      end
  end.

Definition strip_slash (s : string) : string := rstrip_slash (lstrip_slash s).

(** The value of a keyword argument of [uri]: [None], a scalar, or a list
    or tuple whose items may be [None]. *)
Inductive qvalue :=
| QNone
| QScalar (v : string)
| QList (vs : list (option string)).

(** The [(name, value)] pairs [uri] collects from one keyword argument. *)
Definition query_params (nv : string * qvalue) : list (string * string) :=
  match nv.2 with
  | QList vs => (λ i, (nv.1, i)) <$> omap id vs
  | QScalar v => [(nv.1, v)]
  | QNone => []
  end.

(** [unicode_urlencode] tests [isinstance(params, dict)] where [params] is
    a local name that is only assigned afterwards: every call raises
    [UnboundLocalError]. *)
Inductive uri_result :=
| Uri (s : string)
| UnboundLocalError.

Definition unicode_urlencode (params : list (string * string)) : uri_result :=
  UnboundLocalError.

(** [uri(base, *path, **query)]; [query] is given in the order in which
    the dictionary of keyword arguments enumerates them. *)
Definition uri (base : string) (path : list (option string))
  (query : list (string * qvalue)) : uri_result :=
  let base := if str_nonempty base && endswith "/" base
              then drop_last base else base in
  let path := String.concat "/"
                (EmptyString :: ((λ s, unicode_quote (strip_slash s))
                                   <$> omap id path)) in
  let retval := base :: (if str_nonempty path then [path] else []) in
  let params := query ≫= query_params in
  match params with
  | [] => Uri (join retval)
  | _ :: _ =>
      match unicode_urlencode params with
      | Uri q => Uri (join (retval ++ ["?"; q]))
      | UnboundLocalError => UnboundLocalError
      end
  end.

(** The value of an upper-case hexadecimal digit. *)
Definition hex_value (c : ascii) : option nat :=
  let n := nat_of_ascii c in
  if (48 <=? n)%nat && (n <=? 57)%nat then Some (n - 48)
  else if (65 <=? n)%nat && (n <=? 70)%nat then Some (n - 55)
  else None.

(** A path in escaped form: every byte is a letter, a digit, one of
    underscore, dot, hyphen and slash, or a percent sign followed by two
    upper-case hexadecimal digits. *)
Fixpoint well_escaped (s : string) : bool :=
  match s with
  | EmptyString => true
  | String c s' =>
      if Ascii.eqb c "%" then
        match s' with
        | String h1 (String h2 s'') =>
            bool_decide (is_Some (hex_value h1)) &&
            bool_decide (is_Some (hex_value h2)) && well_escaped s''
        | _ => false
        end
      else (always_safe c || Ascii.eqb c "/") && well_escaped s'
  end.

(** Resolving the percent escapes of a path (what the receiver of the
    request does). *)
Fixpoint percent_decode (s : string) : string :=
  match s with
  | EmptyString => EmptyString
  | String c s' =>
      if Ascii.eqb c "%" then
        match s' with
        | String h1 (String h2 s'') =>
            match hex_value h1, hex_value h2 with
            | Some a, Some b =>
                String (ascii_of_nat (16 * a + b)) (percent_decode s'')
            | _, _ => String c (percent_decode s')
            end
        | _ => String c (percent_decode s')
        end
      else String c (percent_decode s')
  end.

(** The base as [uri] uses it: short of one final slash. *)
Definition uri_base (base : string) : string :=
  if str_nonempty base && endswith "/" base then drop_last base else base.

(** An input that ends inside a header line, before any terminal boundary
    line. *)
Definition cut_header_example : list string :=
  [ "--B" +:+ EOL; "Content-Le" ].

(** ** Auxiliary notions for the statements *)

(** The activations after a prefix of the file has been consumed: still
    inside a [for] loop (with the innermost activation, what it has yielded
    and its suspended callers), or stopped. *)
Inductive progress :=
| Running (f : frame) (ys : list part) (cs : callers)
| Stopped (r : list part * outcome).

Fixpoint scan (fileobj : list string) (f : frame) (ys : list part)
  (cs : callers) : progress :=
  match fileobj with
  | [] => Running f ys cs
  | line :: rest =>
      match loop_body f line with
      | Next f' out => scan rest f' (ys ++ out) cs
      | Sub f' sub_boundary =>
          scan rest (new_frame (Some sub_boundary)) [] ((f', ys) :: cs)
      | Break =>
          match resume (ys ++ after_loop f) cs with
          | inl parts => Stopped (parts, Done rest)
          | inr (f', ys', cs') => scan rest f' ys' cs'
          end
      | Raise e => Stopped (unwind ys cs, Raised e)
      end
  end.

(** [c in s] *)
Fixpoint occurs (c : ascii) (s : string) : bool :=
  match s with
  | EmptyString => false
  | String a s' => Ascii.eqb a c || occurs c s'
  end.

(** A line without the separator between name and value. *)
Definition no_separator (line : string) : Prop := occurs ":" line = false.

(** One serialized header line. *)
Definition header_line (h : gmap string string) (name : string) : string :=
  name +:+ ": " +:+ default EmptyString (h !! name) +:+ EOL.

(** The header block of a mapping for a given order of its names: one line
    per name, then the blank line. *)
Definition header_block_of (h : gmap string string) (names : list string)
  : string :=
  String.concat EmptyString (header_line h <$> names) +:+ EOL.

Definition header_block (h : gmap string string) : string :=
  header_block_of h (sorted (keys h)).

(** The headers [add] serializes: the caller's plus the two synthesized
    ones. *)
Definition add_headers (h : gmap string string) (mimetype content : string)
  : gmap string string :=
  <["Content-Length" := str_of_nat (String.length content)]>
    (<["Content-Type" := mimetype]> h).

(** What [add] appends to the output according to the specification:
    opening line, header block, content, one line terminator. *)
Definition add_as_specified (boundary mimetype content : string)
  (h : gmap string string) : string :=
  "--" +:+ boundary +:+ EOL +:+
  header_block (add_headers h mimetype content) +:+
  content +:+ EOL.

(** What [add] appends to the output: the line terminator follows the
    content only when there is content. *)
Definition add_output (boundary mimetype content : string)
  (h : gmap string string) : string :=
  "--" +:+ boundary +:+ EOL +:+
  header_block (add_headers h mimetype content) +:+
  (if str_nonempty content then content +:+ EOL else EmptyString).

(** The dictionary an optional [headers] argument denotes on entry. *)
Definition headers_arg (w : world) (headers : option loc)
  : gmap string string :=
  match headers with
  | Some l => dict_at w l
  | None => ∅
  end.

(** Strict byte-wise lexicographic order. *)
Definition str_lt (s1 s2 : string) : Prop := String.ltb s1 s2 = true.

(** Every byte of [s] satisfies [p]. *)
Fixpoint all_chars (p : ascii → bool) (s : string) : bool :=
  match s with
  | EmptyString => true
  | String c s' => p c && all_chars p s'
  end.

Definition LF : ascii := "010".

(** Writing a flat envelope: the constructor, one [add] per leaf (a media
    type and a content, no extra headers), [close]. *)
Definition flat_program (subtype : string) (boundary : option string)
  (parts : list (string * string)) : M unit :=
  let* envelope := write_multipart subtype boundary in
  for_each parts (λ p, add envelope p.1 p.2 None) ;;
  close envelope.

(** The envelope is one the reader can find its way in: the boundary is
    not empty, neither it nor the subtype contains a line feed, and
    [parse_header] reads the boundary back from the [Content-Type] the
    constructor writes. *)
Definition envelope_ok (subtype boundary : string) : bool :=
  str_nonempty boundary &&
  negb (occurs LF boundary) && negb (occurs LF subtype) &&
  (let '(mimetype, params) :=
     parse_header (envelope_content_type subtype boundary) in
   startswith "multipart/" mimetype &&
   bool_decide (params !! "boundary" = Some boundary)).

(** The caller's obligations for a leaf: the media type is one line
    without surrounding white space and is not a multipart type, and no
    line of the content is a boundary line of the envelope. *)
Definition leaf_ok (boundary : string) (p : string * string) : bool :=
  negb (occurs LF p.1) &&
  String.eqb (strip p.1) p.1 &&
  negb (startswith "multipart/" (parse_header p.1).1) &&
  forallb (λ line, negb (line_is line (next_boundary (Some boundary))) &&
                   negb (line_is line (last_boundary (Some boundary))))
          (iter_lines (p.2 +:+ EOL)).

(** The triple the reader yields for a written leaf: the two headers, and
    as payload the content followed, when it is not empty, by the carriage
    return that [_current_part] leaves. *)
Definition leaf_read (p : string * string) : part :=
  Part {[ "content-length" := str_of_nat (String.length p.2);
          "content-type" := p.1 ]}
       false
       (inl (if str_nonempty p.2 then p.2 +:+ CR else EmptyString)).

(** Writing an envelope that holds one nested envelope with one leaf. *)
Definition nested_program (subtype boundary sub_subtype sub_boundary : string)
  (p : string * string) : M unit :=
  let* envelope := write_multipart subtype (Some boundary) in
  let* part := open envelope None sub_subtype (Some sub_boundary) in
  add part p.1 p.2 None ;;
  close part ;;
  close envelope.

(** What one [add] without extra headers puts on the wire. *)
Definition part_wire (b : string) (p : string * string) : string :=
  add_output b p.1 p.2 ∅.

(** The lines of the body of a written leaf. *)
Definition body_lines (p : string * string) : list string :=
  if str_nonempty p.2 then iter_lines (p.2 +:+ EOL) else [].

(** What an activation for boundary [b] holds once the lines of a written
    leaf are read. *)
Definition leaf_frame (b : string) (p : string * string) (buf : list string)
  : frame :=
  Frame (Some b) (part_headers (leaf_read p)) (buf ++ body_lines p) false false.

(** The header lines the writer emits for a mapping, without the blank
    line that ends the block. *)
Definition header_lines (h : gmap string string) : list string :=
  header_line h <$> sorted (keys h).

(** A header the reader can take back from its line: no separator and no
    line feed in the name, no line feed in the value. *)
Definition header_ok (nv : string * string) : bool :=
  negb (occurs ":" nv.1) && negb (occurs LF nv.1) && negb (occurs LF nv.2).

Definition headers_ok (h : gmap string string) : bool :=
  forallb header_ok (map_to_list h).

(** The key under which the reader files a header name. *)
Definition header_key (name : string) : string := strip (lower name).

(** A document to write: a leaf (media type and content) or a nested
    envelope (subtype, boundary, and what it holds). *)
Inductive doc :=
| DLeaf (mimetype content : string)
| DMulti (subtype boundary : string) (children : list doc).

(** Writing a document into the envelope [self], the way the docstring of
    [write_multipart] prescribes: [add] for a leaf; [open], the children
    in order, then [close] of the nested writer for a nested envelope. *)
Fixpoint write_doc (self : writer) (d : doc) : M unit :=
  match d with
  | DLeaf mimetype content => add self mimetype content None
  | DMulti subtype boundary children =>
      let* part := open self None subtype (Some boundary) in
      (fix write_all (ds : list doc) : M unit :=
         match ds with
         | [] => ret tt
         | d :: ds' => write_doc part d ;; write_all ds'
         end) children ;;
      close part
  end.

Fixpoint write_docs (self : writer) (ds : list doc) : M unit :=
  match ds with
  | [] => ret tt
  | d :: ds' => write_doc self d ;; write_docs self ds'
  end.

(** A whole envelope: [write_multipart], the documents, [close]. *)
Definition write_envelope (subtype boundary : string) (ds : list doc)
  : M unit :=
  let* envelope := write_multipart subtype (Some boundary) in
  write_docs envelope ds ;;
  close envelope.

(** The bytes of a document inside an envelope with boundary [b]. *)
Fixpoint doc_wire (b : string) (d : doc) : string :=
  match d with
  | DLeaf mimetype content => part_wire b (mimetype, content)
  | DMulti subtype boundary children =>
      "--" +:+ b +:+ EOL +:+
      header_block
        (<["Content-Type" := envelope_content_type subtype boundary]> ∅) +:+
      String.concat EmptyString (map (doc_wire boundary) children) +:+
      "--" +:+ boundary +:+ "--" +:+ EOL
  end.

(** The triple the reader yields for a written document, nested sequences
    drained. *)
Fixpoint doc_read (d : doc) : part :=
  match d with
  | DLeaf mimetype content => leaf_read (mimetype, content)
  | DMulti subtype boundary children =>
      Part {[ "content-type" := envelope_content_type subtype boundary ]}
           true (inr (map doc_read children))
  end.

(** The caller's obligations for a document inside an envelope with
    boundary [b]: those of a leaf, and for a nested envelope those of the
    envelope and of its children with respect to its own boundary. *)
Fixpoint doc_ok (b : string) (d : doc) : bool :=
  match d with
  | DLeaf mimetype content => leaf_ok b (mimetype, content)
  | DMulti subtype boundary children =>
      envelope_ok subtype boundary && forallb (doc_ok boundary) children
  end.

(** A leaf activation between two parts: headers and buffer are either
    those of a pending leaf, or both empty. *)
Definition settled (h : gmap string string) (buf : list string) : Prop :=
  dict_true h = false → buf = [].

(** What reading the bytes of written documents does to an activation
    for the enclosing envelope: it is again between two parts, and what it
    has yielded and holds pending has grown by the triples of the
    documents. *)
Definition reads_docs (b : string) (ds : list doc) : Prop :=
  ∀ h buf ys cs,
    settled h buf →
    ∃ h' buf' ys',
      scan (iter_lines (String.concat EmptyString (map (doc_wire b) ds)))
           (Frame (Some b) h buf false false) ys cs
      = Running (Frame (Some b) h' buf' false false) ys' cs
      ∧ settled h' buf'
      ∧ ys' ++ after_loop (Frame (Some b) h' buf' false false)
        = ys ++ after_loop (Frame (Some b) h buf false false)
             ++ map doc_read ds.

(** An envelope whose terminal boundary line is never written:
    [write_multipart] and the documents, without the final [close]. *)
Definition write_unclosed (subtype boundary : string) (ds : list doc)
  : M unit :=
  let* envelope := write_multipart subtype (Some boundary) in
  write_docs envelope ds.

(** A yielded triple corresponds to a written document: a leaf triple
    carries the written length and media type as headers and a payload
    that starts with the written content and is at most one byte longer
    (not longer at all when the content is empty); a multipart triple
    carries the [Content-Type] of the nested envelope as only header and a
    nested sequence that corresponds to the nested documents, one by one
    and in order. *)
Fixpoint doc_matches (d : doc) (p : part) {struct d} : Prop :=
  match d, p with
  | DLeaf mimetype content, Part h m (inl payload) =>
      m = false
      ∧ h = {[ "content-length" := str_of_nat (String.length content);
               "content-type" := mimetype ]}
      ∧ ∃ tail, payload = content +:+ tail
                ∧ String.length tail ≤ 1
                ∧ (content = EmptyString → tail = EmptyString)
  | DMulti subtype boundary children, Part h m (inr ps) =>
      m = true
      ∧ h = {[ "content-type" := envelope_content_type subtype boundary ]}
      ∧ (fix all_match (ds : list doc) (ps : list part) : Prop :=
           match ds, ps with
           | [], [] => True
           | d :: ds', p :: ps' => doc_matches d p ∧ all_match ds' ps'
           | _, _ => False
           end) children ps
  | _, _ => False
  end.

(** * Properties *)

(** ** The docstring examples *)

Lemma flat_example_sink uuids :
  sink (flat_example (empty_world uuids)).2 = flat_example_output.
Proof. vm_compute. reflexivity. Qed.

(** ** Byte strings *)

Section string_facts.
Implicit Types s t u : string.

Lemma str_app_nil_l s : EmptyString +:+ s = s.
Proof. reflexivity. Qed.

Lemma str_app_cons c s t : String c s +:+ t = String c (s +:+ t).
Proof. reflexivity. Qed.

Lemma str_app_nil_r s : s +:+ EmptyString = s.
Proof. induction s as [|c s IH]; [done|]. by rewrite str_app_cons, IH. Qed.

Lemma str_app_assoc s t u : (s +:+ t) +:+ u = s +:+ (t +:+ u).
Proof. induction s as [|c s IH]; [done|]. by rewrite !str_app_cons, IH. Qed.

Lemma endswith_app s suf : endswith suf (s +:+ suf) = true.
Proof.
  induction s as [|c s IH].
  - rewrite str_app_nil_l. destruct suf; simpl; [done|].
    by rewrite Ascii.eqb_refl, String.eqb_refl.
  - rewrite str_app_cons. simpl. rewrite IH. apply orb_true_r.
Qed.

Lemma drop_last_app_two s a b :
  drop_last (s +:+ String a (String b EmptyString)) = s +:+ String a EmptyString.
Proof.
  induction s as [|c s IH]; [done|].
  rewrite !str_app_cons. simpl. rewrite IH. by destruct s.
Qed.

Lemma occurs_app c s t : occurs c (s +:+ t) = occurs c s || occurs c t.
Proof.
  induction s as [|a s IH]; [done|].
  rewrite str_app_cons. simpl. by rewrite IH, orb_assoc.
Qed.

Lemma concat_cons x (xs : list string) :
  String.concat EmptyString (x :: xs) = x +:+ String.concat EmptyString xs.
Proof. destruct xs; simpl; [by rewrite str_app_nil_r|done]. Qed.

Lemma rstrip_app_EOL s : rstrip (s +:+ EOL) = rstrip s.
Proof.
  induction s as [|c s IH]; [done|].
  rewrite str_app_cons. simpl. by rewrite IH.
Qed.

Lemma strip_app_EOL s : strip (s +:+ EOL) = strip s.
Proof.
  unfold strip. induction s as [|c s IH]; [done|].
  rewrite str_app_cons. simpl. destruct (is_space c); [done|].
  by rewrite <- str_app_cons, rstrip_app_EOL.
Qed.

(** The value of a header line as the reader takes it. *)
Lemma strip_header_value s : strip (" " +:+ s +:+ EOL) = strip s.
Proof.
  change (" " +:+ s +:+ EOL) with (String " " (s +:+ EOL)).
  unfold strip at 1. simpl. apply strip_app_EOL.
Qed.

Lemma rstrip_no_space_end s c :
  is_space c = false →
  rstrip (s +:+ String c EmptyString) = s +:+ String c EmptyString.
Proof.
  intros Hc. induction s as [|a s IH].
  - simpl. by rewrite Hc.
  - rewrite str_app_cons. simpl. rewrite IH. by destruct s.
Qed.

Lemma all_chars_no_space_strip s :
  all_chars (λ c, negb (is_space c)) s = true → strip s = s.
Proof.
  unfold strip. destruct s as [|c s]; [done|]. simpl.
  intros [Hc Hs]%andb_true_iff. apply negb_true_iff in Hc. rewrite Hc.
  revert c Hc. induction s as [|a s IH]; intros c Hc.
  - simpl. by rewrite Hc.
  - simpl in Hs. apply andb_true_iff in Hs as [Ha Hs].
    apply negb_true_iff in Ha.
    specialize (IH Hs a Ha). simpl in *. by rewrite IH.
Qed.

Lemma all_chars_impl (p q : ascii → bool) s :
  (∀ c, p c = true → q c = true) →
  all_chars p s = true → all_chars q s = true.
Proof.
  intros Hpq. induction s as [|c s IH]; simpl; [done|].
  intros [Hc Hs]%andb_true_iff. by rewrite (Hpq c Hc), IH.
Qed.

Lemma all_chars_not_occurs p c s :
  p c = false → all_chars p s = true → occurs c s = false.
Proof.
  intros Hc. induction s as [|a s IH]; simpl; [done|].
  intros [Ha Hs]%andb_true_iff. rewrite IH, orb_false_r by done.
  apply Ascii.eqb_neq. by intros ->; rewrite Hc in Ha.
Qed.

Lemma split1_app_sep sep name value :
  occurs sep name = false →
  split1 sep (name +:+ String sep value) = [name; value].
Proof.
  induction name as [|c name IH].
  - intros _. rewrite str_app_nil_l. simpl. by rewrite Ascii.eqb_refl.
  - simpl. intros [Hc Hn]%orb_false_iff. by rewrite Hc, IH.
Qed.

(** *** Cutting a file into lines *)

Lemma iter_lines_nonempty c s : iter_lines (String c s) ≠ [].
Proof. simpl. destruct (Ascii.eqb c "010"); [done|]. by destruct (iter_lines s). Qed.

Lemma iter_lines_app_lf s t :
  iter_lines ((s +:+ String LF EmptyString) +:+ t)
  = iter_lines (s +:+ String LF EmptyString) ++ iter_lines t.
Proof.
  induction s as [|c s IH]; [done|].
  rewrite !str_app_cons. simpl. rewrite IH.
  destruct (Ascii.eqb c "010"); [done|].
  destruct (iter_lines (s +:+ String LF EmptyString)) eqn:Hl; [|done].
  destruct s; by apply iter_lines_nonempty in Hl.
Qed.

Lemma iter_lines_one_line s :
  occurs LF s = false →
  iter_lines (s +:+ String LF EmptyString) = [s +:+ String LF EmptyString].
Proof.
  induction s as [|c s IH]; [done|]. simpl.
  intros [Hc Hs]%orb_false_iff. rewrite str_app_cons. simpl.
  unfold LF in Hc. by rewrite Hc, IH.
Qed.

Lemma EOL_split s : s +:+ EOL = (s +:+ CR) +:+ String LF EmptyString.
Proof. by rewrite str_app_assoc. Qed.

(** A CRLF-terminated text without line feed is one line. *)
Lemma iter_lines_EOL_line s t :
  occurs LF s = false →
  iter_lines ((s +:+ EOL) +:+ t) = (s +:+ EOL) :: iter_lines t.
Proof.
  intros Hs. rewrite !EOL_split, iter_lines_app_lf, iter_lines_one_line; [done|].
  rewrite occurs_app, Hs. done.
Qed.

Lemma iter_lines_EOL_app s t :
  iter_lines ((s +:+ EOL) +:+ t) = iter_lines (s +:+ EOL) ++ iter_lines t.
Proof. by rewrite !EOL_split, iter_lines_app_lf. Qed.

Lemma join_iter_lines s : join (iter_lines s) = s.
Proof.
  unfold join. induction s as [|c s IH]; [done|]. simpl.
  destruct (Ascii.eqb c "010").
  - rewrite concat_cons, IH. done.
  - destruct (iter_lines s) as [|l ls] eqn:Hl.
    + simpl in *. by rewrite <- IH.
    + rewrite concat_cons in *. by rewrite str_app_cons, IH.
Qed.
End string_facts.

(** ** The reader on the docstring examples *)

Lemma current_part_crlf f s :
  join (buf f) = s +:+ EOL →
  _current_part f = Part (headers f) false (inl (s +:+ CR)).
Proof.
  intros Hj. unfold _current_part. rewrite Hj, endswith_app.
  unfold EOL, CR. by rewrite drop_last_app_two.
Qed.

Lemma current_part_no_crlf f :
  endswith EOL (join (buf f)) = false →
  _current_part f = Part (headers f) false (inl (join (buf f))).
Proof. intros He. unfold _current_part. by rewrite He. Qed.

(** C2 (code defect).  Finalizing a leaf whose buffer holds the line
    [Just testing] with its CRLF removes the line feed only: the payload is
    [Just testing] followed by a carriage return, not [Just testing]. *)
Theorem current_part_leaves_carriage_return (h : gmap string string) :
  _current_part
    (Frame (Some "==123456789==") h ["Just testing" +:+ EOL] false false)
  = Part h false (inl ("Just testing" +:+ CR))
  ∧ "Just testing" +:+ CR ≠ "Just testing".
Proof.
  split; [|vm_compute; discriminate].
  by apply (current_part_crlf (Frame _ h ["Just testing" +:+ EOL] false false)).
Qed.

(** C1 (code defect).  The flat docstring example, one leaf
    [("text/plain", "Just testing")], read back in outer mode: one leaf
    triple with the right headers, whose payload is the content followed by
    a carriage return instead of the content. *)
Theorem flat_example_read_back (uuids : nat → string) :
  read_multipart (iter_lines (sink (flat_example (empty_world uuids)).2)) None
  = ([Part {[ "content-length" := "12"; "content-type" := "text/plain" ]}
           false (inl ("Just testing" +:+ CR))],
     Done []).
Proof. vm_compute. reflexivity. Qed.

(** C3 (code defect).  The nested docstring example read back in outer
    mode: one multipart triple whose nested sequence is one leaf triple,
    with payload the content followed by a carriage return. *)
Theorem nested_example_read_back (uuids : nat → string) :
  read_multipart (iter_lines (sink (nested_example (empty_world uuids)).2)) None
  = ([Part {[ "content-type" :=
                "multipart/mixed; boundary=" +:+ Q +:+ "==abcdefghi==" +:+ Q ]}
           true
           (inr [Part {[ "content-length" := "12";
                         "content-type" := "text/plain" ]}
                      false (inl ("Just testing" +:+ CR))])],
     Done []).
Proof. vm_compute. reflexivity. Qed.

(** C7 (code defect).  In inner mode the line before the first opening
    boundary stays in the buffer and opens the payload of the first part. *)
Theorem preamble_kept_in_first_payload :
  read_multipart preamble_example (Some "B")
  = ([Part {[ "content-type" := "text/plain" ]} false
           (inl ("junk" +:+ EOL +:+ "body" +:+ CR))],
     Done []).
Proof. vm_compute. reflexivity. Qed.

(** ** The reader after a prefix of its input *)

Lemma after_loop_after_sub f : after_loop (after_sub f) = [].
Proof. unfold after_loop, after_sub; simpl. by rewrite andb_false_r. Qed.

Lemma at_eof_unwind sub cs : at_eof sub cs = unwind sub cs.
Proof.
  revert sub; induction cs as [|[f ys] cs IH]; intros sub; simpl; [done|].
  destruct (is_None (boundary f)); [done|].
  by rewrite after_loop_after_sub, IH.
Qed.

Lemma run_app l1 l2 f ys cs :
  run (l1 ++ l2) f ys cs =
  match scan l1 f ys cs with
  | Running f' ys' cs' => run l2 f' ys' cs'
  | Stopped (ps, Done rest) => (ps, Done (rest ++ l2))
  | Stopped (ps, Raised e) => (ps, Raised e)
  end.
Proof.
  revert f ys cs; induction l1 as [|line l1 IH]; intros f ys cs; simpl; [done|].
  destruct (loop_body f line) as [f' out|f' b| |e]; auto.
  destruct (resume _ cs) as [ps|[[f' ys'] cs']]; auto.
Qed.

Lemma scan_app l1 l2 f ys cs :
  scan (l1 ++ l2) f ys cs =
  match scan l1 f ys cs with
  | Running f' ys' cs' => scan l2 f' ys' cs'
  | Stopped (ps, Done rest) => Stopped (ps, Done (rest ++ l2))
  | Stopped (ps, Raised e) => Stopped (ps, Raised e)
  end.
Proof.
  revert f ys cs; induction l1 as [|line l1 IH]; intros f ys cs; simpl; [done|].
  destruct (loop_body f line) as [f' out|f' b| |e]; auto.
  destruct (resume _ cs) as [ps|[[f' ys'] cs']]; auto.
Qed.

Lemma run_scan l f ys cs :
  run l f ys cs =
  match scan l f ys cs with
  | Running f' ys' cs' => run [] f' ys' cs'
  | Stopped r => r
  end.
Proof.
  rewrite <- (app_nil_r l) at 1. rewrite run_app.
  destruct (scan l f ys cs) as [|[ps [rest|e]]]; [done| |done].
  by rewrite app_nil_r.
Qed.

Lemma no_separator_spec line :
  no_separator line ↔ ∀ name value, line ≠ name +:+ String ":" value.
Proof.
  unfold no_separator. split.
  - intros Hno name value ->. rewrite occurs_app in Hno. simpl in Hno.
    by rewrite orb_true_r in Hno.
  - induction line as [|c line IH]; intros Hno; simpl; [done|].
    destruct (Ascii.eqb_spec c ":") as [->|Hc].
    + by destruct (Hno EmptyString line).
    + simpl. apply IH. intros name value ->.
      by destruct (Hno (String c name) value).
Qed.

Lemma split1_no_separator sep line :
  occurs sep line = false → split1 sep line = [line].
Proof.
  induction line as [|c line IH]; simpl; [done|].
  destruct (Ascii.eqb c sep); [done|]. simpl. by intros ->%IH.
Qed.

(** C8 (as amended).  When the lines run out while the generator is still
    inside a loop (no line has made it raise and no terminal boundary has
    ended the outermost envelope), it stops without an exception; the
    innermost activation first yields its pending part when it has
    gathered headers (and is not in outer mode). *)
Theorem end_of_input_is_silent fileobj boundary f ys cs :
  scan fileobj (new_frame boundary) [] [] = Running f ys cs →
  read_multipart fileobj boundary
  = (unwind (ys ++ (if negb (outer f) && dict_true (headers f)
                    then [_current_part f] else [])) cs,
     Done []).
Proof.
  intros Hscan. unfold read_multipart.
  rewrite <- (app_nil_r fileobj) at 1.
  rewrite run_app, Hscan. simpl. by rewrite at_eof_unwind.
Qed.

(** C8 as stated fails for an input that ends inside a header line: no
    terminal boundary line has been seen, and the cut line, having no
    separator, makes the generator raise. *)
Lemma end_of_input_in_header_line_raises :
  Forall (λ line, line_is line (last_boundary (Some "B")) = false)
         cut_header_example
  ∧ read_multipart cut_header_example (Some "B") = ([], Raised ValueError).
Proof.
  split; [|vm_compute; reflexivity].
  repeat constructor.
Qed.

(** An exception never comes from the end of the input: when the
    generator raises, it does so on reading one of the lines. *)
Lemma raise_comes_from_a_line fileobj : ∀ f ys cs ps e,
  run fileobj f ys cs = (ps, Raised e) →
  ∃ pre line post f' ys' cs',
    fileobj = pre ++ line :: post
    ∧ scan pre f ys cs = Running f' ys' cs'
    ∧ loop_body f' line = Raise e.
Proof.
  induction fileobj as [|line rest IH]; intros f ys cs ps e; [done|].
  simpl. destruct (loop_body f line) as [f1 out|f1 b| |e1] eqn:Hstep.
  - intros (pre & l & post & f' & ys' & cs' & -> & Hs & Hl)%IH.
    exists (line :: pre), l, post, f', ys', cs'. simpl. by rewrite Hstep.
  - intros (pre & l & post & f' & ys' & cs' & -> & Hs & Hl)%IH.
    exists (line :: pre), l, post, f', ys', cs'. simpl. by rewrite Hstep.
  - destruct (resume _ cs) as [parts|[[f1 ys1] cs1]] eqn:Hres; [done|].
    intros (pre & l & post & f' & ys' & cs' & -> & Hs & Hl)%IH.
    exists (line :: pre), l, post, f', ys', cs'. simpl.
    by rewrite Hstep, Hres.
  - intros [= _ ->]. by exists [], line, rest, f, ys, cs.
Qed.

(** C9.  A line read as a header line that has no separator makes the
    generator raise; what the consumer has received is what was yielded
    before that line, whatever follows it in the input. *)
Theorem malformed_header_raises pre line post boundary f ys cs :
  scan pre (new_frame boundary) [] [] = Running f ys cs →
  in_headers f = true →
  line ≠ EOL →
  no_separator line →
  read_multipart (pre ++ line :: post) boundary
  = (unwind ys cs, Raised ValueError).
Proof.
  intros Hscan Hin Hne Hno. unfold read_multipart.
  rewrite run_app, Hscan. simpl. unfold loop_body. rewrite Hin.
  apply String.eqb_neq in Hne. rewrite Hne. simpl.
  by rewrite split1_no_separator.
Qed.

Lemma end_of_input_is_silent_witness :
  scan truncated_example (new_frame (Some "B")) [] []
  = Running (Frame (Some "B") {[ "content-type" := "text/plain" ]}
                   ["body" +:+ EOL] false false) [] []
  ∧ read_multipart truncated_example (Some "B")
    = ([Part {[ "content-type" := "text/plain" ]} false
             (inl ("body" +:+ CR))],
       Done []).
Proof.
  assert (scan truncated_example (new_frame (Some "B")) [] []
          = Running (Frame (Some "B") {[ "content-type" := "text/plain" ]}
                           ["body" +:+ EOL] false false) [] []) as Hscan
    by (vm_compute; reflexivity).
  split; [exact Hscan|].
  rewrite (end_of_input_is_silent _ _ _ _ _ Hscan).
  vm_compute. reflexivity.
Defined.

Lemma malformed_header_raises_witness :
  read_multipart (["--B" +:+ EOL] ++ ("garbage" +:+ EOL)
                    :: ["Content-Type: text/plain" +:+ EOL; EOL;
                        "body" +:+ EOL; "--B--" +:+ EOL])
                 (Some "B")
  = ([], Raised ValueError).
Proof.
  apply (malformed_header_raises ["--B" +:+ EOL] ("garbage" +:+ EOL) _
           (Some "B") (Frame (Some "B") ∅ [] false true) [] []).
  - vm_compute. reflexivity.
  - reflexivity.
  - vm_compute. discriminate.
  - reflexivity.
Defined.

(** ** The writer *)

Section writer_facts.
Implicit Types (w : world) (l : loc) (h : gmap string string).

Lemma run_bind {A B} (m : M A) (k : A → M B) w :
  bind m k w = k (m w).1 (m w).2.
Proof. unfold bind. by destruct (m w). Qed.

Lemma for_each_header_lines l names w :
  for_each names (λ name,
    write name ;;
    write ": " ;;
    (let* v := dict_getitem l name in write v) ;;
    write EOL) w
  = (tt, World (sink w +:+
                String.concat EmptyString (header_line (dict_at w l) <$> names))
               (heap w) (uuid4_hex w) (drawn w)).
Proof.
  revert w; induction names as [|name names IH]; intros [s hp u d].
  - simpl. unfold ret. by rewrite str_app_nil_r.
  - rewrite fmap_cons, concat_cons. simpl for_each.
    rewrite !run_bind, IH. simpl.
    unfold dict_at, header_line; simpl.
    by rewrite !str_app_assoc.
Qed.

Lemma sorted_nil : sorted [] = [].
Proof. reflexivity. Qed.

Lemma _write_headers_spec l w :
  _write_headers l w
  = (tt, World (sink w +:+ header_block (dict_at w l))
               (heap w) (uuid4_hex w) (drawn w)).
Proof.
  unfold _write_headers, header_block, header_block_of.
  rewrite !run_bind. simpl.
  case_bool_decide as Hk; simpl.
  - rewrite Hk, sorted_nil. unfold write, ret; simpl.
    by rewrite str_app_nil_l.
  - rewrite for_each_header_lines. unfold write; simpl.
    by rewrite str_app_assoc.
Qed.

Lemma dict_at_insert l h hp s u d :
  dict_at (World s (<[l := h]> hp) u d) l = h.
Proof. unfold dict_at; simpl. by rewrite lookup_insert_eq. Qed.

(** The effect of [add]: on the output, and on the dictionary that
    carries the headers. *)
Lemma add_spec self mimetype content headers w :
  let w' := (add self mimetype content headers w).2 in
  let l := match headers with
           | Some l => l
           | None => fresh (dom (heap w))
           end in
  sink w' = sink w +:+ add_output (self_boundary self) mimetype content
                         (headers_arg w headers)
  ∧ dict_at w' l = add_headers (headers_arg w headers) mimetype content.
Proof.
  destruct w as [s hp u d]. unfold add, add_output, add_headers.
  rewrite !run_bind.
  destruct headers as [l|]; unfold write, ret, dict_new, dict_setitem; simpl;
    rewrite _write_headers_spec, !dict_at_insert; simpl;
    unfold dict_at; simpl;
    (destruct (str_nonempty content); rewrite ?run_bind; simpl;
     rewrite ?lookup_insert_eq; simpl;
     by rewrite ?str_app_assoc, ?str_app_nil_r).
Qed.

Lemma MultipartWriter_spec headers subtype boundary w :
  let r := MultipartWriter headers subtype boundary w in
  let b := match boundary with
           | Some b => b
           | None => uuid4_hex w (drawn w)
           end in
  let l := match headers with
           | Some l => l
           | None => fresh (dom (heap w))
           end in
  let h := <["Content-Type" := envelope_content_type subtype b]>
             (headers_arg w headers) in
  r.1 = Writer b ∧ sink r.2 = sink w +:+ header_block h ∧ dict_at r.2 l = h.
Proof.
  destruct w as [s hp u d]. unfold MultipartWriter.
  rewrite !run_bind.
  destruct boundary as [b|], headers as [l|];
    unfold ret, dict_new, dict_setitem, _make_boundary; simpl;
    rewrite _write_headers_spec, !dict_at_insert; simpl;
    unfold dict_at; simpl; by rewrite ?lookup_insert_eq.
Qed.

Lemma close_spec self w :
  sink (close self w).2
  = sink w +:+ "--" +:+ self_boundary self +:+ "--" +:+ EOL.
Proof.
  unfold close. rewrite !run_bind. unfold write; simpl.
  by rewrite !str_app_assoc.
Qed.

Lemma open_spec self headers subtype boundary w :
  ∃ rest, sink (open self headers subtype boundary w).2
          = sink w +:+ "--" +:+ self_boundary self +:+ EOL +:+ rest.
Proof.
  unfold open. rewrite !run_bind.
  destruct (MultipartWriter_spec headers subtype boundary
              (write EOL (write (self_boundary self) (write "--" w).2).2).2)
    as (_ & -> & _).
  eexists. unfold write; simpl. by rewrite !str_app_assoc.
Qed.

Lemma insert_changes `{Countable K} {A} (m : gmap K A) k v :
  <[k := v]> m = m ↔ m !! k = Some v.
Proof.
  split; [|apply insert_id].
  intros Heq. by rewrite <- Heq, lookup_insert_eq.
Qed.

Lemma le_ne_lt s1 s2 : String.le s1 s2 → s1 ≠ s2 → str_lt s1 s2.
Proof.
  unfold String.le, str_lt, String.leb, String.ltb.
  destruct (String.compare s1 s2) eqn:Hc; try done.
  by apply String.compare_eq_iff in Hc.
Qed.

Lemma StronglySorted_strict (names : list string) :
  NoDup names → StronglySorted String.le names →
  StronglySorted str_lt names.
Proof.
  intros Hnd Hs. induction Hs as [|x names Hs IH Hall]; [constructor|].
  apply NoDup_cons in Hnd as [Hx Hnd].
  constructor; [by apply IH|].
  apply Forall_forall. intros y Hy.
  apply le_ne_lt; [by eapply Forall_forall in Hall|].
  intros ->. done.
Qed.

Lemma sorted_Permutation names : sorted names ≡ₚ names.
Proof. apply merge_sort_Permutation. Qed.

Lemma sorted_StronglySorted names : StronglySorted String.le (sorted names).
Proof. apply (StronglySorted_merge_sort _). Qed.

(** The order in which the names are enumerated does not matter. *)
Lemma sorted_order_irrelevant names names' :
  names ≡ₚ names' → sorted names = sorted names'.
Proof.
  intros Hp. apply (StronglySorted_unique String.le);
    [apply sorted_StronglySorted..|].
  by rewrite !sorted_Permutation.
Qed.

Lemma keys_NoDup h : NoDup (keys h).
Proof. apply NoDup_fst_map_to_list. Qed.

Lemma elem_of_keys h name : name ∈ keys h ↔ is_Some (h !! name).
Proof.
  unfold keys. rewrite list_elem_of_fmap. split.
  - intros [[k v] [-> Hkv]]. apply elem_of_map_to_list in Hkv. by exists v.
  - intros [v Hv]. exists (name, v). split; [done|].
    by apply elem_of_map_to_list.
Qed.
End writer_facts.

(** ** Claims about the writer *)

Lemma add_sink self mimetype content headers w :
  sink (add self mimetype content headers w).2
  = sink w +:+ add_output (self_boundary self) mimetype content
                          (headers_arg w headers).
Proof. apply add_spec. Qed.

(** C4 (as amended).  [add] appends the opening boundary line, the header
    block of the caller's headers plus [Content-Type] and [Content-Length]
    (the length of the content) with the names sorted, the blank line, and
    then, when the content is not empty, the content followed by one line
    terminator; nothing follows the blank line when the content is empty. *)
Theorem add_emits self mimetype content headers w :
  sink (add self mimetype content headers w).2
  = sink w +:+
    "--" +:+ self_boundary self +:+ EOL +:+
    header_block
      (<["Content-Length" := str_of_nat (String.length content)]>
         (<["Content-Type" := mimetype]> (headers_arg w headers))) +:+
    (if str_nonempty content then content +:+ EOL else EmptyString).
Proof. apply add_sink. Qed.

(** C4 as stated fails for an empty content: no line terminator is written
    after the blank line. *)
Lemma add_empty_content_not_as_specified :
  let w := empty_world (λ _, EmptyString) in
  sink (add (Writer "B") "text/plain" EmptyString None w).2
  ≠ sink w +:+ add_as_specified "B" "text/plain" EmptyString
               (headers_arg w None).
Proof. vm_compute. discriminate. Qed.

(** C5.  The header block lists each name of the mapping once, in strictly
    increasing byte-wise lexicographic order, whatever the order in which
    the dictionary enumerates them; serializing leaves the mapping as it
    is, and a second serialization appends the same bytes. *)
Theorem header_block_sorted_and_repeatable l w :
  let h := dict_at w l in
  let w1 := (_write_headers l w).2 in
  let w2 := (_write_headers l w1).2 in
  ∃ names,
    StronglySorted str_lt names ∧
    (∀ name, name ∈ names ↔ is_Some (h !! name)) ∧
    (∀ ks, ks ≡ₚ keys h → sorted ks = names) ∧
    heap w1 = heap w ∧
    sink w1 = sink w +:+ header_block_of h names ∧
    sink w2 = sink w1 +:+ header_block_of h names.
Proof.
  intros h w1 w2. exists (sorted (keys h)).
  split; [|split; [|split; [|split; [|split]]]].
  - apply StronglySorted_strict; [|apply sorted_StronglySorted].
    rewrite sorted_Permutation. apply keys_NoDup.
  - intros name. by rewrite sorted_Permutation, elem_of_keys.
  - intros ks Hks. by apply sorted_order_irrelevant.
  - unfold w1. by rewrite _write_headers_spec.
  - unfold w1. by rewrite _write_headers_spec.
  - unfold w2, w1. by rewrite !_write_headers_spec.
Qed.

Lemma header_block_leaf mimetype content :
  header_block (add_headers ∅ mimetype content)
  = "Content-Length: " +:+ str_of_nat (String.length content) +:+ EOL +:+
    "Content-Type: " +:+ mimetype +:+ EOL +:+
    EOL.
Proof.
  unfold header_block, add_headers.
  assert (sorted (keys (<["Content-Length" := str_of_nat (String.length content)]>
                          (<["Content-Type" := mimetype]> ∅)))
          = ["Content-Length"; "Content-Type"]) as ->.
  { change ["Content-Length"; "Content-Type"]
      with (sorted ["Content-Length"; "Content-Type"]).
    apply sorted_order_irrelevant. unfold keys.
    rewrite map_to_list_insert by done.
    by rewrite map_to_list_insert, map_to_list_empty by done. }
  unfold header_block_of, header_line. simpl.
  rewrite lookup_insert_eq, lookup_insert_ne, lookup_insert_eq by done.
  simpl. by rewrite !str_app_assoc.
Qed.

Lemma header_block_empty_leaf mimetype :
  header_block (add_headers ∅ mimetype EmptyString)
  = "Content-Length: 0" +:+ EOL +:+
    "Content-Type: " +:+ mimetype +:+ EOL +:+
    EOL.
Proof. by rewrite header_block_leaf. Qed.

Lemma header_block_envelope value :
  header_block (<["Content-Type" := value]> ∅)
  = "Content-Type: " +:+ value +:+ EOL +:+ EOL.
Proof.
  unfold header_block.
  assert (sorted (keys (<["Content-Type" := value]> ∅)) = ["Content-Type"])
    as ->.
  { change ["Content-Type"] with (sorted ["Content-Type"]).
    apply sorted_order_irrelevant. unfold keys.
    by rewrite map_to_list_insert, map_to_list_empty by done. }
  unfold header_block_of, header_line. simpl.
  rewrite lookup_insert_eq. simpl. by rewrite !str_app_assoc.
Qed.

(** C6.  [add(mimetype, <empty>)] writes the opening line, the two header
    lines [Content-Length: 0] and [Content-Type], and the blank line, and
    nothing else; whatever the writer emits next ([close], another [add],
    [open]) starts with its boundary line, so that no body line stands
    between the blank line and the next boundary line. *)
Theorem add_empty_leaf self mimetype w :
  let w' := (add self mimetype EmptyString None w).2 in
  sink w' = sink w +:+
            "--" +:+ self_boundary self +:+ EOL +:+
            "Content-Length: 0" +:+ EOL +:+
            "Content-Type: " +:+ mimetype +:+ EOL +:+
            EOL
  ∧ sink (close self w').2
    = sink w' +:+ "--" +:+ self_boundary self +:+ "--" +:+ EOL
  ∧ (∀ mimetype' content' headers', ∃ rest,
       sink (add self mimetype' content' headers' w').2
       = sink w' +:+ "--" +:+ self_boundary self +:+ EOL +:+ rest)
  ∧ (∀ headers' subtype' boundary', ∃ rest,
       sink (open self headers' subtype' boundary' w').2
       = sink w' +:+ "--" +:+ self_boundary self +:+ EOL +:+ rest).
Proof.
  intros w'. split; [|split; [|split]].
  - unfold w'. rewrite add_sink. unfold add_output. simpl headers_arg.
    rewrite header_block_empty_leaf. simpl.
    by rewrite str_app_nil_r, ?str_app_assoc.
  - apply close_spec.
  - intros mimetype' content' headers'. rewrite add_sink. by eexists.
  - intros. apply open_spec.
Qed.

(** C10 (as amended).  The constructor and [add] update the dictionary the
    caller passes as [headers] in place: afterwards it is the caller's
    mapping with [Content-Type] (and, for [add], [Content-Length]) set to
    the synthesized values.  The mapping is therefore changed by the call
    unless it already held exactly these values. *)
Theorem headers_argument_updated_in_place l subtype boundary self mimetype
  content w :
  let h := dict_at w l in
  let r := MultipartWriter (Some l) subtype boundary w in
  let ct := envelope_content_type subtype (self_boundary r.1) in
  let len := str_of_nat (String.length content) in
  let w2 := (add self mimetype content (Some l) w).2 in
  dict_at r.2 l = <["Content-Type" := ct]> h
  ∧ (dict_at r.2 l ≠ h ↔ h !! "Content-Type" ≠ Some ct)
  ∧ dict_at w2 l
    = <["Content-Length" := len]> (<["Content-Type" := mimetype]> h)
  ∧ (dict_at w2 l ≠ h ↔
     ¬ (h !! "Content-Type" = Some mimetype
        ∧ h !! "Content-Length" = Some len)).
Proof.
  intros h r ct len w2.
  destruct (MultipartWriter_spec (Some l) subtype boundary w)
    as (Hself & _ & Hd).
  destruct (add_spec self mimetype content (Some l) w) as (_ & Hd2).
  fold r in Hself, Hd. fold w2 in Hd2. simpl in Hd, Hd2.
  unfold add_headers in Hd2. fold h in Hd, Hd2. fold len in Hd2.
  assert (dict_at r.2 l = <["Content-Type" := ct]> h) as Hd'.
  { rewrite Hd. unfold ct. by rewrite Hself. }
  split; [done|]. split; [by rewrite Hd', insert_changes|].
  split; [done|]. rewrite Hd2.
  assert (<["Content-Length" := len]> (<["Content-Type" := mimetype]> h) = h
          ↔ h !! "Content-Type" = Some mimetype
            ∧ h !! "Content-Length" = Some len) as Hiff; [|by rewrite Hiff].
  split.
  - intros Heq. split; rewrite <- Heq.
    + by rewrite lookup_insert_ne, lookup_insert_eq.
    + by rewrite lookup_insert_eq.
  - intros [Hct Hcl]. rewrite (insert_id h _ _ Hct). by apply insert_id.
Qed.

(** C10 as stated fails for a caller's mapping that already holds the
    synthesized values: it is not empty and the call leaves it as it was. *)
Lemma headers_argument_left_unchanged :
  let h : gmap string string :=
    {[ "Content-Type" := envelope_content_type "mixed" "B" ]} in
  let w := World EmptyString {[ 1%positive := h ]} (λ _, EmptyString) 0 in
  let h' : gmap string string :=
    {[ "Content-Type" := "text/plain"; "Content-Length" := "4" ]} in
  let w' := World EmptyString {[ 1%positive := h' ]} (λ _, EmptyString) 0 in
  dict_at w 1%positive ≠ ∅
  ∧ dict_at (MultipartWriter (Some 1%positive) "mixed" (Some "B") w).2
            1%positive
    = dict_at w 1%positive
  ∧ dict_at w' 1%positive ≠ ∅
  ∧ dict_at (add (Writer "B") "text/plain" "body" (Some 1%positive) w').2
            1%positive
    = dict_at w' 1%positive.
Proof.
  repeat split; try (vm_compute; reflexivity); vm_compute; discriminate.
Qed.

(** ** Writing a flat envelope and reading it back *)

Lemma pretty_N_go_no_space x s :
  all_chars (λ c, negb (is_space c)) s = true →
  all_chars (λ c, negb (is_space c)) (pretty_N_go x s) = true.
Proof.
  revert s. induction (N.lt_wf_0 x) as [x _ IH]; intros s Hs.
  destruct (decide (x = 0)%N) as [->|Hx]; [by rewrite pretty_N_go_0|].
  rewrite pretty_N_go_step by lia. apply IH; [apply N.div_lt; lia|].
  simpl. rewrite Hs, andb_true_r.
  unfold pretty_N_char. by repeat case_match.
Qed.

Lemma str_of_nat_no_space n :
  all_chars (λ c, negb (is_space c)) (str_of_nat n) = true.
Proof.
  unfold str_of_nat, pretty, pretty_nat, pretty, pretty_N.
  case_decide; [done|]. by apply pretty_N_go_no_space.
Qed.

Lemma str_of_nat_strip n : strip (str_of_nat n) = str_of_nat n.
Proof. apply all_chars_no_space_strip, str_of_nat_no_space. Qed.

Lemma str_of_nat_no_LF n : occurs LF (str_of_nat n) = false.
Proof.
  eapply all_chars_not_occurs; [|apply str_of_nat_no_space]. done.
Qed.

Lemma for_each_add_sink self parts w :
  sink (for_each parts (λ p, add self p.1 p.2 None) w).2
  = sink w +:+
    String.concat EmptyString (part_wire (self_boundary self) <$> parts).
Proof.
  revert w; induction parts as [|p parts IH]; intros w.
  - simpl. unfold ret. simpl. by rewrite str_app_nil_r.
  - simpl for_each. rewrite run_bind, IH, add_sink, fmap_cons, concat_cons.
    simpl. by rewrite str_app_assoc.
Qed.

Lemma flat_program_sink subtype boundary parts w :
  let b := default (uuid4_hex w (drawn w)) boundary in
  sink (flat_program subtype boundary parts w).2
  = sink w +:+
    header_block (<["Content-Type" := envelope_content_type subtype b]> ∅) +:+
    String.concat EmptyString (part_wire b <$> parts) +:+
    "--" +:+ b +:+ "--" +:+ EOL.
Proof.
  intros b. unfold flat_program, write_multipart. rewrite !run_bind.
  destruct (MultipartWriter_spec None subtype boundary w) as (Hself & Hs & _).
  rewrite close_spec, for_each_add_sink, Hs, Hself. simpl.
  assert (match boundary with Some b0 => b0 | None => uuid4_hex w (drawn w) end
          = b) as -> by (by destruct boundary).
  by rewrite !str_app_assoc.
Qed.

Section reading_leaves.
Variable b : string.
Hypothesis b_nonempty : str_nonempty b = true.
Hypothesis b_no_LF : occurs LF b = false.

Lemma next_boundary_b : next_boundary (Some b) = Some ("--" +:+ b +:+ EOL).
Proof. simpl. by rewrite b_nonempty. Qed.

Lemma last_boundary_b :
  last_boundary (Some b) = Some ("--" +:+ b +:+ "--" +:+ EOL).
Proof. simpl. by rewrite b_nonempty. Qed.

Lemma last_is_not_next :
  String.eqb ("--" +:+ b +:+ "--" +:+ EOL) ("--" +:+ b +:+ EOL) = false.
Proof.
  apply String.eqb_neq. intros Heq. do 2 apply (inj (String.app _)) in Heq.
  discriminate.
Qed.

(** Body lines go to the buffer. *)
Lemma scan_body lines h buf ys cs :
  forallb (λ line, negb (line_is line (next_boundary (Some b))) &&
                   negb (line_is line (last_boundary (Some b)))) lines = true →
  scan lines (Frame (Some b) h buf false false) ys cs
  = Running (Frame (Some b) h (buf ++ lines) false false) ys cs.
Proof.
  revert buf; induction lines as [|line lines IH]; intros buf; simpl.
  - by rewrite app_nil_r.
  - intros [[Hn Hl]%andb_true_iff Hrest]%andb_true_iff.
    apply negb_true_iff in Hn, Hl. unfold loop_body. simpl in *.
    rewrite Hn, Hl. simpl. rewrite app_nil_r, IH by done.
    by rewrite <- app_assoc.
Qed.

Lemma part_wire_lines p t :
  occurs LF p.1 = false →
  iter_lines (part_wire b p +:+ t)
  = [ "--" +:+ b +:+ EOL;
      "Content-Length: " +:+ str_of_nat (String.length p.2) +:+ EOL;
      "Content-Type: " +:+ p.1 +:+ EOL;
      EOL ] ++ body_lines p ++ iter_lines t.
Proof.
  intros Hmt. unfold part_wire, add_output, body_lines.
  rewrite header_block_leaf.
  assert (∀ body,
    ("--" +:+ b +:+ EOL +:+
     ("Content-Length: " +:+ str_of_nat (String.length p.2) +:+ EOL +:+
      "Content-Type: " +:+ p.1 +:+ EOL +:+ EOL) +:+ body) +:+ t
    = (("--" +:+ b) +:+ EOL) +:+
      ((("Content-Length: " +:+ str_of_nat (String.length p.2)) +:+ EOL) +:+
       ((("Content-Type: " +:+ p.1) +:+ EOL) +:+
        ((EmptyString +:+ EOL) +:+ (body +:+ t))))) as ->
    by (intros; by rewrite !str_app_assoc).
  rewrite !iter_lines_EOL_line; first last.
  - rewrite occurs_app. by rewrite b_no_LF.
  - rewrite occurs_app. by rewrite str_of_nat_no_LF.
  - rewrite occurs_app. by rewrite Hmt.
  - done.
  - rewrite !str_app_assoc, str_app_nil_l. simpl.
    destruct (str_nonempty p.2); [|done].
    by rewrite iter_lines_EOL_app.
Qed.

(** The two header lines of a written leaf and the blank line after them. *)
Lemma loop_body_content_length n bd h buf o :
  loop_body (Frame bd h buf o true)
            ("Content-Length: " +:+ str_of_nat n +:+ EOL)
  = Next (Frame bd (<["content-length" := str_of_nat n]> h) buf o true) [].
Proof.
  unfold loop_body. simpl in_headers. cbv iota.
  change ("Content-Length: " +:+ str_of_nat n +:+ EOL)
    with ("Content-Length" +:+ String ":" (" " +:+ str_of_nat n +:+ EOL)).
  rewrite split1_app_sep by done.
  rewrite strip_header_value, str_of_nat_strip. done.
Qed.

Lemma loop_body_content_type v bd h buf o :
  strip v = v →
  loop_body (Frame bd h buf o true) ("Content-Type: " +:+ v +:+ EOL)
  = Next (Frame bd (<["content-type" := v]> h) buf o true) [].
Proof.
  intros Hv. unfold loop_body. simpl in_headers. cbv iota.
  change ("Content-Type: " +:+ v +:+ EOL)
    with ("Content-Type" +:+ String ":" (" " +:+ v +:+ EOL)).
  rewrite split1_app_sep by done.
  rewrite strip_header_value, Hv. done.
Qed.

Lemma loop_body_blank_leaf bd h buf o v :
  h !! "content-type" = Some v →
  startswith "multipart/" (parse_header v).1 = false →
  loop_body (Frame bd h buf o true) EOL = Next (Frame bd h buf o false) [].
Proof.
  intros Hct Hm. unfold loop_body. simpl. rewrite Hct.
  destruct (parse_header v) as [m params]. simpl in Hm. by rewrite Hm.
Qed.

Lemma leaf_ok_inv p :
  leaf_ok b p = true →
  occurs LF p.1 = false ∧ strip p.1 = p.1 ∧
  startswith "multipart/" (parse_header p.1).1 = false ∧
  forallb (λ line, negb (line_is line (next_boundary (Some b))) &&
                   negb (line_is line (last_boundary (Some b))))
          (body_lines p) = true.
Proof.
  unfold leaf_ok. intros [[[H1 H2]%andb_true_iff H3]%andb_true_iff H4]%andb_true_iff.
  apply negb_true_iff in H1, H3. apply String.eqb_eq in H2.
  repeat split; try done. unfold body_lines. by destruct (str_nonempty p.2).
Qed.

Lemma scan_leaf p h buf ys cs :
  leaf_ok b p = true →
  scan ([ "--" +:+ b +:+ EOL;
          "Content-Length: " +:+ str_of_nat (String.length p.2) +:+ EOL;
          "Content-Type: " +:+ p.1 +:+ EOL;
          EOL ] ++ body_lines p)
       (Frame (Some b) h buf false false) ys cs
  = if dict_true h
    then Running (leaf_frame b p [])
                 (ys ++ [_current_part (Frame (Some b) h buf false false)]) cs
    else Running (leaf_frame b p buf) ys cs.
Proof.
  intros (Hlf & Hstrip & Hmulti & Hbody)%leaf_ok_inv.
  assert (∀ h0 : gmap string string,
    (<["content-type" := p.1]> (<["content-length" := str_of_nat (String.length p.2)]> h0))
      !! "content-type" = Some p.1) as Hct
    by (intros; apply lookup_insert_eq).
  assert (<["content-type" := p.1]>
            (<["content-length" := str_of_nat (String.length p.2)]> ∅)
          = part_headers (leaf_read p) :> gmap string string) as Hh.
  { simpl. rewrite <- insert_empty. by apply insert_insert_ne. }
  cbn [app scan].
  assert (loop_body (Frame (Some b) h buf false false) ("--" +:+ b +:+ EOL)
          = if dict_true h
            then Next (Frame (Some b) ∅ [] false true)
                      [_current_part (Frame (Some b) h buf false false)]
            else Next (Frame (Some b) h buf false true) []) as ->.
  { unfold loop_body. simpl in_headers. simpl boundary. cbv iota.
    rewrite next_boundary_b. unfold line_is at 1. rewrite String.eqb_refl.
    simpl. by destruct (dict_true h). }
  destruct (dict_true h) eqn:Hd.
  - rewrite loop_body_content_length, loop_body_content_type by done.
    erewrite loop_body_blank_leaf by (apply Hct || done).
    rewrite !app_nil_r, scan_body by done.
    unfold leaf_frame. by rewrite Hh.
  - assert (h = ∅) as ->.
    { unfold dict_true in Hd. apply negb_false_iff in Hd.
      by apply bool_decide_eq_true in Hd. }
    rewrite loop_body_content_length, loop_body_content_type by done.
    erewrite loop_body_blank_leaf by (apply Hct || done).
    rewrite !app_nil_r, scan_body by done.
    unfold leaf_frame. by rewrite Hh.
Qed.

Lemma iter_lines_EOL_single s :
  occurs LF s = false → iter_lines (s +:+ EOL) = [s +:+ EOL].
Proof.
  intros Hs. rewrite EOL_split, iter_lines_one_line; [done|].
  by rewrite occurs_app, Hs.
Qed.

Lemma dict_true_leaf p : dict_true (part_headers (leaf_read p)) = true.
Proof.
  unfold dict_true. apply negb_true_iff, bool_decide_eq_false. simpl.
  apply insert_non_empty.
Qed.

Lemma after_loop_leaf_frame p :
  after_loop (leaf_frame b p []) = [leaf_read p].
Proof.
  unfold after_loop, leaf_frame. cbn [outer headers negb andb].
  rewrite dict_true_leaf. f_equal. unfold leaf_read, body_lines.
  destruct (str_nonempty p.2).
  - erewrite current_part_crlf; [done|]. simpl. apply join_iter_lines.
  - by rewrite current_part_no_crlf.
Qed.

(** The leaves of an envelope, up to and including its terminal boundary
    line, read by an activation in inner mode. *)
Lemma scan_leaves parts h buf ys cs :
  forallb (leaf_ok b) parts = true →
  (dict_true h = false → buf = []) →
  scan (iter_lines (String.concat EmptyString (part_wire b <$> parts) +:+
                    "--" +:+ b +:+ "--" +:+ EOL))
       (Frame (Some b) h buf false false) ys cs
  = match resume (ys ++ after_loop (Frame (Some b) h buf false false)
                     ++ (leaf_read <$> parts)) cs with
    | inl ps => Stopped (ps, Done [])
    | inr (f', ys', cs') => Running f' ys' cs'
    end.
Proof.
  revert h buf ys. induction parts as [|p parts IH]; intros h buf ys Hok Hbuf.
  - simpl String.concat. rewrite str_app_nil_l.
    replace ("--" +:+ b +:+ "--" +:+ EOL) with (("--" +:+ b +:+ "--") +:+ EOL)
      by (by rewrite !str_app_assoc).
    rewrite iter_lines_EOL_single
      by (rewrite !occurs_app; by rewrite b_no_LF).
    rewrite !str_app_assoc. cbn [scan]. unfold loop_body.
    simpl in_headers. simpl boundary. cbv iota.
    rewrite next_boundary_b, last_boundary_b. unfold line_is.
    rewrite last_is_not_next, String.eqb_refl.
    rewrite fmap_nil, app_nil_r.
    by destruct (resume _ cs) as [ps|[[f' ys'] cs']].
  - simpl in Hok. apply andb_true_iff in Hok as [Hp Hok].
    rewrite fmap_cons, concat_cons, str_app_assoc.
    rewrite part_wire_lines by (by apply leaf_ok_inv in Hp as [? _]).
    rewrite app_assoc, scan_app, scan_leaf by done.
    unfold after_loop at 1. cbn [outer headers negb andb].
    destruct (dict_true h) eqn:Hd.
    + unfold leaf_frame. rewrite IH; [|done|by rewrite dict_true_leaf].
      fold (leaf_frame b p []).
      rewrite after_loop_leaf_frame, fmap_cons.
      by rewrite <- !app_assoc.
    + rewrite (Hbuf eq_refl).
      unfold leaf_frame. rewrite IH; [|done|by rewrite dict_true_leaf].
      fold (leaf_frame b p []).
      by rewrite after_loop_leaf_frame, fmap_cons.
Qed.
End reading_leaves.

Lemma envelope_content_type_strip subtype b :
  strip (envelope_content_type subtype b) = envelope_content_type subtype b.
Proof.
  unfold strip.
  assert (lstrip (envelope_content_type subtype b)
          = envelope_content_type subtype b) as -> by done.
  unfold envelope_content_type, Q.
  replace ("multipart/" +:+ subtype +:+ "; boundary=" +:+
           String dquote EmptyString +:+ b +:+ String dquote EmptyString)
    with (("multipart/" +:+ subtype +:+ "; boundary=" +:+
           String dquote EmptyString +:+ b) +:+ String dquote EmptyString)
    by (by rewrite !str_app_assoc).
  by apply rstrip_no_space_end.
Qed.

Lemma envelope_content_type_no_LF subtype b :
  occurs LF subtype = false → occurs LF b = false →
  occurs LF (envelope_content_type subtype b) = false.
Proof.
  intros Hs Hb. unfold envelope_content_type.
  rewrite !occurs_app, Hs, Hb. done.
Qed.

(** Within the caller's obligations, the flat envelope that the writer
    produces is read back in outer mode as one leaf triple per written
    leaf, in the same order, with the written media type and length as
    headers; the payload is the content followed by a carriage return
    (the content itself when it is empty). *)
Lemma flat_round_trip subtype boundary parts w :
  let b := default (uuid4_hex w (drawn w)) boundary in
  sink w = EmptyString →
  envelope_ok subtype b = true →
  forallb (leaf_ok b) parts = true →
  read_multipart (iter_lines (sink (flat_program subtype boundary parts w).2))
                 None
  = (leaf_read <$> parts, Done []).
Proof.
  intros b Hw Henv Hparts.
  unfold envelope_ok in Henv.
  destruct (parse_header (envelope_content_type subtype b))
    as [mimetype params] eqn:Hparse.
  apply andb_true_iff in Henv as [[[Hne Hlf]%andb_true_iff Hls]%andb_true_iff
    [Hm Hb%bool_decide_eq_true]%andb_true_iff].
  apply negb_true_iff in Hlf, Hls.
  rewrite flat_program_sink, Hw, str_app_nil_l. fold b.
  rewrite header_block_envelope.
  rewrite !str_app_assoc.
  replace ("Content-Type: " +:+ envelope_content_type subtype b +:+ EOL +:+ EOL
           +:+ String.concat EmptyString (part_wire b <$> parts)
           +:+ "--" +:+ b +:+ "--" +:+ EOL)
    with ((("Content-Type: " +:+ envelope_content_type subtype b) +:+ EOL)
          +:+ ((EmptyString +:+ EOL)
          +:+ (String.concat EmptyString (part_wire b <$> parts)
               +:+ "--" +:+ b +:+ "--" +:+ EOL)))
    by (by rewrite !str_app_assoc).
  rewrite !iter_lines_EOL_line; first last.
  { rewrite occurs_app. by rewrite envelope_content_type_no_LF. }
  { done. }
  rewrite str_app_nil_l, str_app_assoc.
  unfold read_multipart.
  change (new_frame None) with (Frame None ∅ [] true true). cbn [run].
  rewrite loop_body_content_type by apply envelope_content_type_strip.
  cbv beta iota.
  assert (loop_body
            (Frame None (<["content-type" := envelope_content_type subtype b]> ∅)
                   [] true true) EOL
          = Sub (Frame None
                   (<["content-type" := envelope_content_type subtype b]> ∅)
                   [] true false) b) as ->.
  { unfold loop_body. simpl. rewrite lookup_insert_eq, Hparse, Hm, Hb. done. }
  cbv beta iota.
  change (new_frame (Some b)) with (Frame (Some b) ∅ [] false false).
  rewrite run_scan, scan_leaves by done. simpl. done.
Qed.

(** ** One nested envelope *)

Lemma open_exact self subtype boundary w :
  let r := open self None subtype (Some boundary) w in
  r.1 = Writer boundary
  ∧ sink r.2
    = sink w +:+ "--" +:+ self_boundary self +:+ EOL +:+
      header_block (<["Content-Type" := envelope_content_type subtype boundary]> ∅).
Proof.
  unfold open. rewrite !run_bind.
  destruct (MultipartWriter_spec None subtype (Some boundary)
              (write EOL (write (self_boundary self) (write "--" w).2).2).2)
    as (-> & -> & _).
  split; [done|]. unfold write; simpl. by rewrite !str_app_assoc.
Qed.

Lemma nested_program_sink subtype b sub_subtype sub_b p w :
  sink (nested_program subtype b sub_subtype sub_b p w).2
  = sink w +:+
    header_block (<["Content-Type" := envelope_content_type subtype b]> ∅) +:+
    "--" +:+ b +:+ EOL +:+
    header_block
      (<["Content-Type" := envelope_content_type sub_subtype sub_b]> ∅) +:+
    part_wire sub_b p +:+
    "--" +:+ sub_b +:+ "--" +:+ EOL +:+
    "--" +:+ b +:+ "--" +:+ EOL.
Proof.
  unfold nested_program, write_multipart. rewrite !run_bind.
  destruct (MultipartWriter_spec None subtype (Some b) w) as (Hself & Hs & _).
  rewrite Hself.
  destruct (open_exact (Writer b) sub_subtype sub_b
              (MultipartWriter None subtype (Some b) w).2) as (Hpart & Hs2).
  rewrite Hpart, !close_spec, add_sink, Hs2, Hs. simpl.
  unfold part_wire. by rewrite !str_app_assoc.
Qed.

(** Within the caller's obligations, an envelope holding one nested
    envelope with one leaf is read back in outer mode as one multipart
    triple, whose nested sequence, once drained, is the one leaf triple;
    the leaf payload is the content followed by a carriage return (the
    content itself when it is empty). *)
Lemma nested_round_trip subtype b sub_subtype sub_b p w :
  sink w = EmptyString →
  envelope_ok subtype b = true →
  envelope_ok sub_subtype sub_b = true →
  leaf_ok sub_b p = true →
  read_multipart
    (iter_lines (sink (nested_program subtype b sub_subtype sub_b p w).2)) None
  = ([Part {[ "content-type" := envelope_content_type sub_subtype sub_b ]}
           true (inr [leaf_read p])],
     Done []).
Proof.
  intros Hw Henv Henv2 Hp.
  unfold envelope_ok in Henv, Henv2.
  destruct (parse_header (envelope_content_type subtype b))
    as [mimetype params] eqn:Hparse.
  destruct (parse_header (envelope_content_type sub_subtype sub_b))
    as [mimetype2 params2] eqn:Hparse2.
  apply andb_true_iff in Henv as [[[Hne Hlf]%andb_true_iff Hls]%andb_true_iff
    [Hm Hb%bool_decide_eq_true]%andb_true_iff].
  apply andb_true_iff in Henv2 as [[[Hne2 Hlf2]%andb_true_iff Hls2]%andb_true_iff
    [Hm2 Hb2%bool_decide_eq_true]%andb_true_iff].
  apply negb_true_iff in Hlf, Hls, Hlf2, Hls2.
  rewrite nested_program_sink, Hw, str_app_nil_l, !header_block_envelope.
  rewrite !str_app_assoc.
  replace ("Content-Type: " +:+ envelope_content_type subtype b +:+ EOL +:+ EOL
           +:+ "--" +:+ b +:+ EOL
           +:+ "Content-Type: " +:+ envelope_content_type sub_subtype sub_b
           +:+ EOL +:+ EOL
           +:+ part_wire sub_b p +:+ "--" +:+ sub_b +:+ "--" +:+ EOL
           +:+ "--" +:+ b +:+ "--" +:+ EOL)
    with ((("Content-Type: " +:+ envelope_content_type subtype b) +:+ EOL)
          +:+ ((EmptyString +:+ EOL)
          +:+ ((("--" +:+ b) +:+ EOL)
          +:+ ((("Content-Type: "
                 +:+ envelope_content_type sub_subtype sub_b) +:+ EOL)
          +:+ ((EmptyString +:+ EOL)
          +:+ (((String.concat EmptyString (part_wire sub_b <$> [p])
                 +:+ "--" +:+ sub_b +:+ "--") +:+ EOL)
          +:+ ("--" +:+ b +:+ "--") +:+ EOL))))))
    by (simpl; by rewrite !str_app_assoc).
  do 5 (rewrite iter_lines_EOL_line
          by (rewrite ?occurs_app;
              by rewrite ?envelope_content_type_no_LF, ?Hlf)).
  rewrite iter_lines_EOL_app.
  rewrite (iter_lines_EOL_single ("--" +:+ b +:+ "--"))
    by (rewrite !occurs_app; by rewrite Hlf).
  rewrite !str_app_nil_l, !str_app_assoc.
  unfold read_multipart.
  change (new_frame None) with (Frame None ∅ [] true true). cbn [run app].
  rewrite loop_body_content_type by apply envelope_content_type_strip.
  cbv beta iota.
  assert (loop_body
            (Frame None (<["content-type" := envelope_content_type subtype b]> ∅)
                   [] true true) EOL
          = Sub (Frame None
                   (<["content-type" := envelope_content_type subtype b]> ∅)
                   [] true false) b) as ->.
  { unfold loop_body. simpl. rewrite lookup_insert_eq, Hparse, Hm, Hb. done. }
  cbv beta iota.
  change (new_frame (Some b)) with (Frame (Some b) ∅ [] false false).
  assert (loop_body (Frame (Some b) ∅ [] false false) ("--" +:+ b +:+ EOL)
          = Next (Frame (Some b) ∅ [] false true) []) as ->.
  { unfold loop_body. simpl in_headers. simpl boundary. cbv iota.
    rewrite next_boundary_b by done. unfold line_is at 1.
    by rewrite String.eqb_refl. }
  cbv beta iota.
  rewrite loop_body_content_type by apply envelope_content_type_strip.
  cbv beta iota.
  assert (loop_body
            (Frame (Some b)
               (<["content-type" := envelope_content_type sub_subtype sub_b]> ∅)
               [] false true) EOL
          = Sub (Frame (Some b)
                   (<["content-type" := envelope_content_type sub_subtype sub_b]> ∅)
                   [] false false) sub_b) as ->.
  { unfold loop_body. simpl. rewrite lookup_insert_eq, Hparse2, Hm2, Hb2. done. }
  cbv beta iota.
  change (new_frame (Some sub_b)) with (Frame (Some sub_b) ∅ [] false false).
  rewrite run_app, scan_leaves by (done || (simpl; by rewrite Hp)).
  simpl resume. cbv beta iota.
  cbn [run]. unfold loop_body. simpl in_headers. simpl boundary. cbv iota.
  rewrite next_boundary_b, last_boundary_b by done. unfold line_is.
  rewrite last_is_not_next, String.eqb_refl by done.
  simpl. by rewrite insert_empty.
Qed.

(** The two round trips on concrete envelopes: three leaves, one of them
    empty and one of two lines; and a nested envelope. *)
Example flat_round_trip_three uuids :
  let parts := [ ("text/plain", "Just testing");
                 ("application/octet-stream", EmptyString);
                 ("text/plain; charset=utf-8", "two" +:+ EOL +:+ "lines") ] in
  read_multipart
    (iter_lines (sink (flat_program "mixed" (Some "==123456789==") parts
                         (empty_world uuids)).2)) None
  = (leaf_read <$> parts, Done []).
Proof. intros parts. apply flat_round_trip; vm_compute; reflexivity. Qed.

Example nested_round_trip_docstring uuids :
  read_multipart
    (iter_lines (sink (nested_program "mixed" "==123456789=="
                         "mixed" "==abcdefghi=="
                         ("text/plain", "Just testing")
                         (empty_world uuids)).2)) None
  = ([Part {[ "content-type" :=
                envelope_content_type "mixed" "==abcdefghi==" ]}
           true (inr [leaf_read ("text/plain", "Just testing")])],
     Done []).
Proof. apply nested_round_trip; vm_compute; reflexivity. Qed.

(** ** The preamble in inner mode *)

(** Whatever lines precede the first opening boundary line (none of them a
    boundary line), they are still in the buffer when the first leaf is
    finalized: its payload is made of the preamble followed by its body. *)
Lemma preamble_reaches_first_payload b pre p :
  str_nonempty b = true →
  occurs LF b = false →
  leaf_ok b p = true →
  forallb (λ line, negb (line_is line (next_boundary (Some b))) &&
                   negb (line_is line (last_boundary (Some b)))) pre = true →
  read_multipart
    (pre ++ iter_lines (part_wire b p +:+ "--" +:+ b +:+ "--" +:+ EOL))
    (Some b)
  = ([_current_part (leaf_frame b p pre)], Done []).
Proof.
  intros Hne Hlf Hp Hpre. unfold read_multipart.
  change (new_frame (Some b)) with (Frame (Some b) ∅ [] false false).
  rewrite run_app, scan_body by done. simpl app.
  rewrite part_wire_lines by (by apply leaf_ok_inv in Hp as [? _]).
  rewrite app_assoc, run_app, scan_leaf by done.
  change (dict_true ∅) with false. cbv iota.
  change ("--" +:+ b +:+ "--" +:+ EOL)
    with (String.concat EmptyString (part_wire b <$> []) +:+
          "--" +:+ b +:+ "--" +:+ EOL).
  unfold leaf_frame.
  rewrite run_scan, scan_leaves; [|done..|by rewrite dict_true_leaf].
  unfold after_loop. cbn [outer headers negb andb].
  rewrite dict_true_leaf. done.
Qed.

(** * Further properties of the reader *)

Lemma run_empty_boundary fileobj buf :
  run fileobj (Frame (Some EmptyString) ∅ buf false false) [] []
  = ([], Done []).
Proof.
  revert buf. induction fileobj as [|line rest IH]; intros buf; [reflexivity|].
  simpl. apply IH.
Qed.

(** X1.  An empty boundary string counts as no boundary for the two
    boundary lines ([boundary and ... or None]) but not for the mode: the
    activation is in inner mode, never recognizes a boundary line, and
    having no headers yields nothing.  Every input is consumed, nothing is
    yielded, nothing is raised. *)
Theorem empty_boundary_yields_nothing fileobj :
  read_multipart fileobj (Some EmptyString) = ([], Done []).
Proof. apply run_empty_boundary. Qed.

(** The outer activation that has left its header block without finding a
    multipart type keeps every further line in its buffer. *)
Lemma run_outer_body rest h buf :
  run rest (Frame None h buf true false) [] [] = ([], Done []).
Proof.
  revert buf. induction rest as [|line rest IH]; intros buf; [reflexivity|].
  simpl. apply IH.
Qed.

(** X2.  In outer mode, when the header block ends with a content type
    that is not multipart, the rest of the input is consumed without a
    part being yielded and without an exception, whatever it contains. *)
Theorem outer_mode_non_multipart pre h buf ct body :
  scan pre (new_frame None) [] [] = Running (Frame None h buf true true) [] [] →
  h !! "content-type" = Some ct →
  startswith "multipart/" (parse_header ct).1 = false →
  read_multipart (pre ++ EOL :: body) None = ([], Done []).
Proof.
  intros Hscan Hct Hm. unfold read_multipart.
  rewrite run_app, Hscan. cbn [run].
  unfold loop_body. simpl. rewrite Hct.
  destruct (parse_header ct) as [m params]. simpl in Hm. rewrite Hm.
  apply run_outer_body.
Qed.

Lemma outer_mode_non_multipart_witness :
  read_multipart (["Content-Type: text/plain" +:+ EOL] ++ EOL
                    :: ["--B" +:+ EOL; "Content-Type: text/plain" +:+ EOL;
                        EOL; "body" +:+ EOL; "--B--" +:+ EOL]) None
  = ([], Done []).
Proof.
  apply (outer_mode_non_multipart _ {[ "content-type" := "text/plain" ]} []
           "text/plain").
  - vm_compute. reflexivity.
  - reflexivity.
  - vm_compute. reflexivity.
Defined.

(** X3.  A header block without a [Content-Type] line makes the generator
    raise at the blank line ([parse_header] is applied to [None]); what
    has been yielded before stays, nothing else is yielded. *)
Theorem missing_content_type_raises pre post boundary f ys cs :
  scan pre (new_frame boundary) [] [] = Running f ys cs →
  in_headers f = true →
  headers f !! "content-type" = None →
  read_multipart (pre ++ EOL :: post) boundary = (unwind ys cs, Raised TypeError).
Proof.
  intros Hscan Hin Hct. unfold read_multipart.
  rewrite run_app, Hscan. cbn [run]. unfold loop_body.
  rewrite Hin. simpl. by rewrite Hct.
Qed.

Lemma missing_content_type_raises_witness :
  read_multipart (["--B" +:+ EOL; "Content-Length: 4" +:+ EOL] ++ EOL
                    :: ["body" +:+ EOL; "--B--" +:+ EOL]) (Some "B")
  = ([], Raised TypeError).
Proof.
  apply (missing_content_type_raises _ _ (Some "B")
           (Frame (Some "B") {[ "content-length" := "4" ]} [] false true) [] []).
  - vm_compute. reflexivity.
  - reflexivity.
  - reflexivity.
Defined.

(** X4.  A multipart content type without a [boundary] parameter makes the
    generator raise [KeyError] at the blank line. *)
Theorem missing_boundary_parameter_raises pre post boundary f ys cs ct :
  scan pre (new_frame boundary) [] [] = Running f ys cs →
  in_headers f = true →
  headers f !! "content-type" = Some ct →
  startswith "multipart/" (parse_header ct).1 = true →
  (parse_header ct).2 !! "boundary" = None →
  read_multipart (pre ++ EOL :: post) boundary = (unwind ys cs, Raised KeyError).
Proof.
  intros Hscan Hin Hct Hm Hb. unfold read_multipart.
  rewrite run_app, Hscan. cbn [run]. unfold loop_body.
  rewrite Hin. simpl. rewrite Hct.
  destruct (parse_header ct) as [m params]. simpl in Hm, Hb.
  by rewrite Hm, Hb.
Qed.

Lemma missing_boundary_parameter_raises_witness :
  read_multipart (["Content-Type: multipart/mixed" +:+ EOL] ++ EOL
                    :: ["--B" +:+ EOL; "--B--" +:+ EOL]) None
  = ([], Raised KeyError).
Proof.
  apply (missing_boundary_parameter_raises _ _ None
           (Frame None {[ "content-type" := "multipart/mixed" ]} [] true true)
           [] [] "multipart/mixed").
  - vm_compute. reflexivity.
  - reflexivity.
  - reflexivity.
  - vm_compute. reflexivity.
  - vm_compute. reflexivity.
Defined.

(** X5.  Once the terminal boundary of the outermost envelope has been
    read, or an exception raised, nothing that follows in the file is
    examined: the parts are the same and the lines after the terminal
    boundary are left unread. *)
Theorem nothing_read_after_stop fileobj extra boundary ps o :
  scan fileobj (new_frame boundary) [] [] = Stopped (ps, o) →
  read_multipart (fileobj ++ extra) boundary
  = (ps, match o with
         | Done rest => Done (rest ++ extra)
         | Raised e => Raised e
         end).
Proof.
  intros Hscan. unfold read_multipart. rewrite run_app, Hscan.
  by destruct o.
Qed.

Lemma nothing_read_after_stop_witness :
  read_multipart
    (["--B" +:+ EOL; "Content-Type: text/plain" +:+ EOL; EOL; "--B--" +:+ EOL]
       ++ ["epilogue" +:+ EOL; "--B" +:+ EOL])
    (Some "B")
  = ([Part {[ "content-type" := "text/plain" ]} false (inl EmptyString)],
     Done ([] ++ ["epilogue" +:+ EOL; "--B" +:+ EOL])).
Proof.
  apply (nothing_read_after_stop _ _ (Some "B") _ (Done [])).
  vm_compute. reflexivity.
Defined.

Lemma endswith_inv suf s :
  endswith suf s = true → ∃ s', s = s' +:+ suf.
Proof.
  induction s as [|c s IH]; cbn [endswith].
  - rewrite orb_false_r. intros <-%String.eqb_eq. by exists EmptyString.
  - intros [<-%String.eqb_eq|Hs]%orb_true_iff.
    + by exists EmptyString.
    + destruct (IH Hs) as [s' ->]. by exists (String c s').
Qed.

(** X6.  The payload of a finalized leaf is a prefix of the concatenation
    of its body lines: what is left out is nothing, or an end of the final
    line terminator; no byte before it is ever lost or altered. *)
Theorem current_part_payload_prefix f :
  ∃ payload tail,
    _current_part f = Part (headers f) false (inl payload)
    ∧ join (buf f) = payload +:+ tail
    ∧ endswith tail EOL = true.
Proof.
  unfold _current_part. destruct (endswith EOL (join (buf f))) eqn:He.
  - apply endswith_inv in He as [s' Hs]. rewrite Hs.
    exists (s' +:+ CR), (String LF EmptyString).
    split; [|split; [by rewrite str_app_assoc|done]].
    unfold EOL, CR. by rewrite drop_last_app_two.
  - exists (join (buf f)), EmptyString.
    split; [done|]. split; [by rewrite str_app_nil_r|done].
Qed.

(** * Further properties of the writer *)

Lemma _write_headers_heap l w : heap (_write_headers l w).2 = heap w.
Proof. by rewrite _write_headers_spec. Qed.

Lemma add_heap self mimetype content headers w :
  let l := match headers with
           | Some l => l
           | None => fresh (dom (heap w))
           end in
  heap (add self mimetype content headers w).2
  = <[l := add_headers (headers_arg w headers) mimetype content]> (heap w).
Proof.
  destruct w as [s hp u d]. unfold add, add_headers.
  rewrite !run_bind.
  destruct headers as [l|]; unfold write, ret, dict_new, dict_setitem; simpl;
    rewrite _write_headers_spec, !dict_at_insert; simpl;
    unfold dict_at; simpl;
    (destruct (str_nonempty content); rewrite ?run_bind; simpl;
     by rewrite ?insert_insert_eq).
Qed.

Lemma MultipartWriter_heap headers subtype boundary w :
  let r := MultipartWriter headers subtype boundary w in
  let l := match headers with
           | Some l => l
           | None => fresh (dom (heap w))
           end in
  heap r.2
  = <[l := <["Content-Type" :=
               envelope_content_type subtype (self_boundary r.1)]>
             (headers_arg w headers)]> (heap w).
Proof.
  destruct w as [s hp u d]. unfold MultipartWriter.
  rewrite !run_bind.
  destruct boundary as [b|], headers as [l|];
    unfold ret, dict_new, dict_setitem, _make_boundary; simpl;
    rewrite _write_headers_spec, ?dict_at_insert; simpl;
    unfold dict_at; simpl; by rewrite ?insert_insert_eq.
Qed.

Lemma fresh_not_allocated (hp : gmap loc (gmap string string)) l' :
  is_Some (hp !! l') → fresh (dom hp) ≠ l'.
Proof.
  intros Hl' <-. apply elem_of_dom in Hl'. by apply is_fresh in Hl'.
Qed.

(** X7.  The constructor, [add] and [open] touch one dictionary only: the
    one passed as [headers], or a new one when none is passed.  Every
    other dictionary that exists when the method is called is the same
    afterwards; [close] touches none. *)
Theorem writer_leaves_other_dictionaries l' self headers subtype boundary
  mimetype content w :
  is_Some (heap w !! l') →
  headers ≠ Some l' →
  heap (MultipartWriter headers subtype boundary w).2 !! l' = heap w !! l'
  ∧ heap (add self mimetype content headers w).2 !! l' = heap w !! l'
  ∧ heap (open self headers subtype boundary w).2 !! l' = heap w !! l'
  ∧ heap (close self w).2 = heap w.
Proof.
  intros Hl' Hne.
  assert (match headers with
          | Some l => l
          | None => fresh (dom (heap w))
          end ≠ l') as Hl.
  { destruct headers as [l|]; [congruence|by apply fresh_not_allocated]. }
  split; [|split; [|split]].
  - rewrite MultipartWriter_heap. by rewrite lookup_insert_ne.
  - rewrite add_heap. by rewrite lookup_insert_ne.
  - unfold open. rewrite !run_bind, MultipartWriter_heap.
    by rewrite lookup_insert_ne.
  - unfold close. by rewrite !run_bind.
Qed.

Lemma writer_leaves_other_dictionaries_witness :
  heap (add (Writer "B") "text/plain" "body" (Some 1%positive)
          (World EmptyString
             {[ 1%positive := {[ "X-A" := "a" ]};
                2%positive := {[ "X-B" := "b" ]} ]}
             (λ _, EmptyString) 0)).2
    !! 2%positive
  = heap (World EmptyString
            {[ 1%positive := {[ "X-A" := "a" ]};
               2%positive := {[ "X-B" := "b" ]} ]}
            (λ _, EmptyString) 0) !! 2%positive.
Proof.
  refine (proj1 (proj2 (writer_leaves_other_dictionaries 2%positive
            (Writer "B") (Some 1%positive) "mixed" (Some "B")
            "text/plain" "body" _ _ _))).
  - by eexists.
  - discriminate.
Defined.

Lemma endswith_app_assoc s t : endswith EOL (s +:+ t +:+ EOL) = true.
Proof. rewrite <- str_app_assoc. apply endswith_app. Qed.

Lemma header_block_ends h : ∃ s, header_block h = s +:+ EOL.
Proof. by eexists. Qed.

(** X8.  Whatever has been written before, the output ends with a line
    terminator after the constructor, after [add] (with or without
    content), after [open] and after [close]: every method leaves the
    output at the start of a line. *)
Theorem output_ends_with_line_terminator self headers subtype boundary
  mimetype content w :
  endswith EOL (sink (MultipartWriter headers subtype boundary w).2) = true
  ∧ endswith EOL (sink (add self mimetype content headers w).2) = true
  ∧ endswith EOL (sink (open self headers subtype boundary w).2) = true
  ∧ endswith EOL (sink (close self w).2) = true.
Proof.
  split; [|split; [|split]].
  - destruct (MultipartWriter_spec headers subtype boundary w) as (_ & -> & _).
    unfold header_block, header_block_of. apply endswith_app_assoc.
  - rewrite add_sink. unfold add_output, header_block, header_block_of.
    destruct (str_nonempty content).
    + rewrite <- !str_app_assoc. apply endswith_app.
    + rewrite str_app_nil_r, <- !str_app_assoc. apply endswith_app.
  - unfold open. rewrite !run_bind.
    destruct (MultipartWriter_spec headers subtype boundary
                (write EOL (write (self_boundary self) (write "--" w).2).2).2)
      as (_ & -> & _).
    unfold header_block, header_block_of. apply endswith_app_assoc.
  - rewrite close_spec. rewrite <- !str_app_assoc. apply endswith_app.
Qed.

(** * Headers from the writer to the reader *)

Lemma header_line_shape h name :
  header_line h name
  = (name +:+ String ":" (" " +:+ default EmptyString (h !! name))) +:+ EOL.
Proof. unfold header_line. by rewrite !str_app_assoc. Qed.

Lemma header_line_not_blank h name :
  String.eqb (header_line h name) EOL = false.
Proof.
  apply String.eqb_neq. intros Heq.
  assert (occurs ":" (header_line h name) = true) as Hocc.
  { rewrite header_line_shape, !occurs_app. simpl.
    by rewrite !orb_true_r. }
  by rewrite Heq in Hocc.
Qed.

Lemma loop_body_header_line h name bd acc buf o :
  occurs ":" name = false →
  loop_body (Frame bd acc buf o true) (header_line h name)
  = Next (Frame bd (<[header_key name :=
                       strip (default EmptyString (h !! name))]> acc)
                buf o true) [].
Proof.
  intros Hname. unfold loop_body. simpl in_headers. cbv iota.
  rewrite header_line_not_blank. simpl negb. cbv iota.
  unfold header_line.
  change (name +:+ ": " +:+ default EmptyString (h !! name) +:+ EOL)
    with (name +:+ String ":"
            (" " +:+ default EmptyString (h !! name) +:+ EOL)).
  rewrite split1_app_sep by done.
  by rewrite strip_header_value.
Qed.

Lemma scan_header_lines h names bd acc buf o ys cs :
  Forall (λ name, occurs ":" name = false) names →
  scan (header_line h <$> names) (Frame bd acc buf o true) ys cs
  = Running
      (Frame bd
         (foldl (λ acc name,
                   <[header_key name :=
                       strip (default EmptyString (h !! name))]> acc)
                acc names)
         buf o true) ys cs.
Proof.
  intros Hnames. revert acc ys.
  induction Hnames as [|name names Hname _ IH]; intros acc ys; [done|].
  rewrite fmap_cons. cbn [scan]. rewrite loop_body_header_line by done.
  rewrite app_nil_r. apply IH.
Qed.

Lemma iter_lines_header_lines h names t :
  Forall (λ name, occurs LF name = false
                  ∧ occurs LF (default EmptyString (h !! name)) = false)
         names →
  iter_lines (String.concat EmptyString (header_line h <$> names) +:+ t)
  = (header_line h <$> names) ++ iter_lines t.
Proof.
  induction 1 as [|name names [Hn Hv] _ IH]; [done|].
  rewrite fmap_cons, concat_cons, str_app_assoc, header_line_shape.
  rewrite iter_lines_EOL_line; [by rewrite IH|].
  rewrite occurs_app. simpl. rewrite occurs_app. simpl. by rewrite Hn, Hv.
Qed.

Lemma foldl_insert_other {A} (key : A → string) (val : A → string) names
  (acc : gmap string string) k :
  (∀ name, name ∈ names → key name ≠ k) →
  foldl (λ acc name, <[key name := val name]> acc) acc names !! k = acc !! k.
Proof.
  revert acc. induction names as [|n names IH]; intros acc Hk; [done|].
  simpl. rewrite IH by (intros; apply Hk; by right).
  apply lookup_insert_ne, Hk. by left.
Qed.

Lemma foldl_insert_found {A} (key : A → string) (val : A → string) names
  (acc : gmap string string) name :
  NoDup names →
  name ∈ names →
  (∀ name', name' ∈ names → key name' = key name → name' = name) →
  foldl (λ acc name, <[key name := val name]> acc) acc names !! key name
  = Some (val name).
Proof.
  revert acc. induction names as [|n names IH]; intros acc Hnd Hin Huniq.
  - by apply elem_of_nil in Hin.
  - apply NoDup_cons in Hnd as [Hn Hnd]. simpl.
    apply elem_of_cons in Hin as [->|Hin].
    + rewrite foldl_insert_other; [apply lookup_insert_eq|].
      intros name' Hin' Hkey. apply Hn.
      rewrite <- (Huniq name'); [done|by right|done].
    + apply IH; [done..|]. intros name' Hin'. apply Huniq. by right.
Qed.

Lemma headers_ok_inv h name v :
  headers_ok h = true → h !! name = Some v →
  occurs ":" name = false ∧ occurs LF name = false ∧ occurs LF v = false.
Proof.
  unfold headers_ok. rewrite forallb_forall. intros Hall Hv.
  specialize (Hall (name, v)). unfold header_ok in Hall. simpl in Hall.
  rewrite !andb_true_iff, !negb_true_iff in Hall.
  destruct Hall as [[? ?] ?]; [|done].
  apply list_elem_of_In. by apply elem_of_map_to_list.
Qed.

(** X9.  A header block as the writer serializes it is taken back by the
    reader line by line: the block is cut into the writer's header lines
    and the blank line; reading the header lines leaves the activation in
    header mode; every written header whose key (the name lower-cased and
    stripped) is shared with no other written name is found under that key
    with its value stripped; and no other key is touched. *)
Theorem written_headers_read_back h t bd acc buf o ys cs :
  headers_ok h = true →
  iter_lines (header_block h +:+ t) = header_lines h ++ EOL :: iter_lines t
  ∧ ∃ h',
      scan (header_lines h) (Frame bd acc buf o true) ys cs
      = Running (Frame bd h' buf o true) ys cs
      ∧ (∀ name v,
           h !! name = Some v →
           (∀ name', is_Some (h !! name') →
                     header_key name' = header_key name → name' = name) →
           h' !! header_key name = Some (strip v))
      ∧ (∀ k, (∀ name, is_Some (h !! name) → header_key name ≠ k) →
              h' !! k = acc !! k).
Proof.
  intros Hok.
  assert (∀ name, name ∈ sorted (keys h) ↔ is_Some (h !! name)) as Hin.
  { intros name. by rewrite sorted_Permutation, elem_of_keys. }
  split.
  - unfold header_block, header_block_of, header_lines.
    rewrite str_app_assoc, iter_lines_header_lines.
    + reflexivity.
    + apply Forall_forall. intros name [v Hv]%Hin.
      destruct (headers_ok_inv h name v Hok Hv) as (_ & ? & ?).
      by rewrite Hv.
  - eexists. split; [|split].
    + apply scan_header_lines. apply Forall_forall. intros name [v Hv]%Hin.
      by destruct (headers_ok_inv h name v Hok Hv) as (? & _).
    + intros name v Hv Huniq.
      rewrite (foldl_insert_found header_key
                 (λ name, strip (default EmptyString (h !! name)))).
      * by rewrite Hv.
      * rewrite sorted_Permutation. apply keys_NoDup.
      * apply Hin. by exists v.
      * intros name' Hin'. apply Huniq. by apply Hin.
    + intros k Hk.
      apply (foldl_insert_other header_key
               (λ name, strip (default EmptyString (h !! name)))).
      intros name Hname. apply Hk. by apply Hin.
Qed.

Lemma written_headers_read_back_witness :
  iter_lines (header_block {[ "X-Note" := " spaced "; "Content-Type" := "a/b" ]}
              +:+ "body")
  = header_lines {[ "X-Note" := " spaced "; "Content-Type" := "a/b" ]}
    ++ EOL :: iter_lines "body".
Proof.
  refine (proj1 (written_headers_read_back _ "body" None ∅ [] false [] [] _)).
  vm_compute. reflexivity.
Defined.

(** * Nested envelopes of any shape *)

Lemma doc_nested_ind (P : doc → Prop) :
  (∀ mimetype content, P (DLeaf mimetype content)) →
  (∀ subtype boundary children,
     Forall P children → P (DMulti subtype boundary children)) →
  ∀ d, P d.
Proof.
  intros Hleaf Hmulti. fix IH 1. intros [mimetype content|subtype b ds].
  - apply Hleaf.
  - apply Hmulti. induction ds as [|d ds IHds]; constructor; [apply IH|done].
Qed.

Lemma write_doc_multi self subtype b ds w :
  write_doc self (DMulti subtype b ds) w
  = (let* part := open self None subtype (Some b) in
     write_docs part ds ;; close part) w.
Proof.
  assert (∀ part,
    (fix write_all (ds : list doc) : M unit :=
       match ds with
       | [] => ret tt
       | d :: ds' => write_doc part d ;; write_all ds'
       end) ds = write_docs part ds) as Heq.
  { intros part. induction ds as [|d ds IHds]; [done|]. simpl. by rewrite IHds. }
  simpl. rewrite !run_bind. by rewrite Heq.
Qed.

Lemma write_doc_sink d : ∀ self w,
  sink (write_doc self d w).2 = sink w +:+ doc_wire (self_boundary self) d.
Proof.
  induction d as [mimetype content|subtype b ds IHds] using doc_nested_ind;
    intros self w.
  - apply add_sink.
  - rewrite write_doc_multi, !run_bind.
    destruct (open_exact self subtype b w) as (Hpart & Hs).
    rewrite close_spec, Hpart.
    assert (∀ w0, sink (write_docs (Writer b) ds w0).2
                  = sink w0 +:+
                    String.concat EmptyString (map (doc_wire b) ds)) as ->.
    { induction IHds as [|d ds Hd _ IH]; intros w0.
      - simpl. unfold ret. simpl. by rewrite str_app_nil_r.
      - simpl write_docs. rewrite run_bind, IH, Hd. simpl map.
        rewrite concat_cons. simpl. by rewrite str_app_assoc. }
    rewrite Hs. simpl. by rewrite !str_app_assoc.
Qed.

Lemma write_docs_sink self ds w :
  sink (write_docs self ds w).2
  = sink w +:+
    String.concat EmptyString (map (doc_wire (self_boundary self)) ds).
Proof.
  revert w. induction ds as [|d ds IH]; intros w.
  - simpl. unfold ret. simpl. by rewrite str_app_nil_r.
  - simpl write_docs. rewrite run_bind, IH, write_doc_sink. simpl map.
    rewrite concat_cons. by rewrite str_app_assoc.
Qed.

Lemma write_envelope_sink subtype b ds w :
  sink (write_envelope subtype b ds w).2
  = sink w +:+
    header_block (<["Content-Type" := envelope_content_type subtype b]> ∅) +:+
    String.concat EmptyString (map (doc_wire b) ds) +:+
    "--" +:+ b +:+ "--" +:+ EOL.
Proof.
  unfold write_envelope, write_multipart. rewrite !run_bind.
  destruct (MultipartWriter_spec None subtype (Some b) w) as (Hself & Hs & _).
  rewrite close_spec, write_docs_sink, Hs, Hself. simpl.
  by rewrite !str_app_assoc.
Qed.

Lemma doc_wire_ends b d : ∃ s, doc_wire b d = s +:+ EOL.
Proof.
  destruct d as [mimetype content|subtype b' ds]; simpl.
  - unfold part_wire, add_output, header_block, header_block_of. simpl.
    destruct (str_nonempty content).
    + eexists. by rewrite <- !str_app_assoc.
    + eexists. by rewrite str_app_nil_r, <- !str_app_assoc.
  - eexists. by rewrite <- !str_app_assoc.
Qed.

Lemma docs_wire_lines b ds t :
  iter_lines (String.concat EmptyString (map (doc_wire b) ds) +:+ t)
  = iter_lines (String.concat EmptyString (map (doc_wire b) ds))
    ++ iter_lines t.
Proof.
  induction ds as [|d ds IH]; [done|].
  simpl map. rewrite !concat_cons, str_app_assoc.
  destruct (doc_wire_ends b d) as [s ->].
  by rewrite !iter_lines_EOL_app, IH, app_assoc.
Qed.

Section reading_documents.
Implicit Types (h : gmap string string) (buf : list string).

Lemma scan_close b h buf ys cs :
  str_nonempty b = true →
  scan ["--" +:+ b +:+ "--" +:+ EOL] (Frame (Some b) h buf false false) ys cs
  = match resume (ys ++ after_loop (Frame (Some b) h buf false false)) cs with
    | inl ps => Stopped (ps, Done [])
    | inr (f', ys', cs') => Running f' ys' cs'
    end.
Proof.
  intros Hne. cbn [scan]. unfold loop_body.
  simpl in_headers. simpl boundary. cbv iota.
  rewrite next_boundary_b, last_boundary_b by done. unfold line_is.
  rewrite last_is_not_next, String.eqb_refl.
  by destruct (resume _ cs) as [ps|[[f' ys'] cs']].
Qed.

Lemma loop_body_opening_line b h buf :
  str_nonempty b = true →
  settled h buf →
  loop_body (Frame (Some b) h buf false false) ("--" +:+ b +:+ EOL)
  = Next (Frame (Some b) ∅ [] false true)
         (after_loop (Frame (Some b) h buf false false)).
Proof.
  intros Hne Hset. unfold loop_body, after_loop.
  simpl in_headers. simpl boundary. cbv iota.
  rewrite next_boundary_b by done. unfold line_is at 1.
  rewrite String.eqb_refl. simpl.
  destruct (dict_true h) eqn:Hd; [done|].
  rewrite (Hset Hd).
  unfold dict_true in Hd. apply negb_false_iff, bool_decide_eq_true in Hd.
  by rewrite Hd.
Qed.

(** Entering a nested envelope: its opening line in the enclosing
    envelope, its [Content-Type] line and the blank line. *)
Lemma scan_open_nested b subtype b' h buf ys cs :
  str_nonempty b = true →
  settled h buf →
  envelope_ok subtype b' = true →
  scan [ "--" +:+ b +:+ EOL;
         "Content-Type: " +:+ envelope_content_type subtype b' +:+ EOL;
         EOL ]
       (Frame (Some b) h buf false false) ys cs
  = Running (Frame (Some b') ∅ [] false false) []
      ((Frame (Some b)
          (<["content-type" := envelope_content_type subtype b']> ∅)
          [] false false,
        ys ++ after_loop (Frame (Some b) h buf false false)) :: cs).
Proof.
  intros Hne Hset Henv. unfold envelope_ok in Henv.
  destruct (parse_header (envelope_content_type subtype b'))
    as [mimetype params] eqn:Hparse.
  apply andb_true_iff in Henv as [_ [Hm Hb%bool_decide_eq_true]%andb_true_iff].
  cbn [scan]. rewrite loop_body_opening_line by done. cbv beta iota.
  rewrite loop_body_content_type by apply envelope_content_type_strip.
  cbv beta iota.
  assert (loop_body
            (Frame (Some b)
               (<["content-type" := envelope_content_type subtype b']> ∅)
               [] false true) EOL
          = Sub (Frame (Some b)
                   (<["content-type" := envelope_content_type subtype b']> ∅)
                   [] false false) b') as ->.
  { unfold loop_body. simpl. rewrite lookup_insert_eq, Hparse, Hm, Hb. done. }
  by rewrite app_nil_r.
Qed.

Lemma reads_docs_nil b : reads_docs b [].
Proof.
  intros h buf ys cs Hset. exists h, buf, ys.
  split; [done|]. split; [done|]. by rewrite app_nil_r.
Qed.

Lemma reads_docs_cons b d ds :
  reads_docs b [d] → reads_docs b ds → reads_docs b (d :: ds).
Proof.
  intros Hd Hds h buf ys cs Hset.
  destruct (Hd h buf ys cs Hset) as (h1 & buf1 & ys1 & Hs1 & Hset1 & Hys1).
  destruct (Hds h1 buf1 ys1 cs Hset1) as (h2 & buf2 & ys2 & Hs2 & Hset2 & Hys2).
  exists h2, buf2, ys2. split; [|split; [done|]].
  - simpl map. rewrite concat_cons.
    change (String.concat EmptyString (map (doc_wire b) [d]))
      with (doc_wire b d) in Hs1.
    destruct (doc_wire_ends b d) as [s Hs]. rewrite Hs in Hs1 |- *.
    by rewrite iter_lines_EOL_app, scan_app, Hs1.
  - rewrite Hys2, app_assoc, Hys1. simpl map.
    by rewrite <- !app_assoc.
Qed.

Lemma reads_docs_leaf b mimetype content :
  str_nonempty b = true → occurs LF b = false →
  leaf_ok b (mimetype, content) = true →
  reads_docs b [DLeaf mimetype content].
Proof.
  intros Hne Hlf Hok h buf ys cs Hset.
  exists (part_headers (leaf_read (mimetype, content))),
         ([] ++ body_lines (mimetype, content)),
         (ys ++ after_loop (Frame (Some b) h buf false false)).
  split; [|split].
  - change (String.concat EmptyString (map (doc_wire b) [DLeaf mimetype content]))
      with (part_wire b (mimetype, content)).
    rewrite <- (str_app_nil_r (part_wire b (mimetype, content))).
    rewrite part_wire_lines by (done || by apply leaf_ok_inv in Hok as [? _]).
    simpl iter_lines. rewrite app_nil_r, scan_leaf by done.
    unfold after_loop. cbn [outer headers negb andb].
    destruct (dict_true h) eqn:Hd; [done|].
    by rewrite (Hset Hd), app_nil_r.
  - intros Hd. by rewrite dict_true_leaf in Hd.
  - fold (leaf_frame b (mimetype, content) []).
    by rewrite after_loop_leaf_frame, <- app_assoc.
Qed.

Lemma reads_docs_multi b subtype b' ds :
  str_nonempty b = true → occurs LF b = false →
  envelope_ok subtype b' = true →
  reads_docs b' ds →
  reads_docs b [DMulti subtype b' ds].
Proof.
  intros Hne Hlf Henv Hds h buf ys cs Hset.
  assert (str_nonempty b' = true ∧ occurs LF b' = false
          ∧ occurs LF subtype = false) as (Hne' & Hlf' & Hls').
  { unfold envelope_ok in Henv.
    apply andb_true_iff in Henv as [[[? ?]%andb_true_iff ?]%andb_true_iff _].
    by rewrite <- !negb_true_iff. }
  exists ∅, [],
    ((ys ++ after_loop (Frame (Some b) h buf false false))
       ++ [doc_read (DMulti subtype b' ds)]).
  split; [|split; [done|]].
  - change (String.concat EmptyString (map (doc_wire b) [DMulti subtype b' ds]))
      with (doc_wire b (DMulti subtype b' ds)).
    simpl doc_wire. rewrite header_block_envelope.
    replace ("--" +:+ b +:+ EOL +:+
             ("Content-Type: " +:+ envelope_content_type subtype b' +:+ EOL
              +:+ EOL) +:+
             String.concat EmptyString (map (doc_wire b') ds) +:+
             "--" +:+ b' +:+ "--" +:+ EOL)
      with ((("--" +:+ b) +:+ EOL) +:+
            ((("Content-Type: " +:+ envelope_content_type subtype b') +:+ EOL)
             +:+ ((EmptyString +:+ EOL) +:+
                  (String.concat EmptyString (map (doc_wire b') ds) +:+
                   ("--" +:+ b' +:+ "--") +:+ EOL))))
      by (by rewrite !str_app_assoc).
    do 3 (rewrite iter_lines_EOL_line
            by (rewrite ?occurs_app;
                by rewrite ?envelope_content_type_no_LF, ?Hlf)).
    rewrite docs_wire_lines.
    rewrite (iter_lines_EOL_single ("--" +:+ b' +:+ "--"))
      by (rewrite !occurs_app; by rewrite Hlf').
    rewrite !str_app_nil_l, !str_app_assoc.
    change (?a :: ?b :: ?c :: ?l) with ([a; b; c] ++ l).
    rewrite scan_app, scan_open_nested by done.
    destruct (Hds ∅ [] []
                ((Frame (Some b)
                    (<["content-type" := envelope_content_type subtype b']> ∅)
                    [] false false,
                  ys ++ after_loop (Frame (Some b) h buf false false)) :: cs))
      as (h1 & buf1 & ys1 & Hs1 & _ & Hys1); [done|].
    rewrite scan_app, Hs1, scan_close, Hys1 by done.
    simpl. by rewrite insert_empty.
  - by rewrite app_nil_r, <- app_assoc.
Qed.

Lemma reads_docs_all d : ∀ b,
  str_nonempty b = true → occurs LF b = false →
  doc_ok b d = true → reads_docs b [d].
Proof.
  induction d as [mimetype content|subtype b' ds IHds] using doc_nested_ind;
    intros b Hne Hlf Hok.
  - by apply reads_docs_leaf.
  - simpl in Hok. apply andb_true_iff in Hok as [Henv Hok].
    apply reads_docs_multi; [done..|].
    assert (str_nonempty b' = true ∧ occurs LF b' = false) as [Hne' Hlf'].
    { unfold envelope_ok in Henv.
      apply andb_true_iff in Henv as [[[? ?]%andb_true_iff ?]%andb_true_iff _].
      by rewrite <- !negb_true_iff. }
    clear Henv. induction IHds as [|d ds Hd _ IH].
    + apply reads_docs_nil.
    + simpl in Hok. apply andb_true_iff in Hok as [Hokd Hok].
      apply reads_docs_cons; [by apply Hd|by apply IH].
Qed.

Lemma reads_docs_list b ds :
  str_nonempty b = true → occurs LF b = false →
  forallb (doc_ok b) ds = true → reads_docs b ds.
Proof.
  intros Hne Hlf. induction ds as [|d ds IH]; intros Hok.
  - apply reads_docs_nil.
  - simpl in Hok. apply andb_true_iff in Hok as [Hokd Hok].
    apply reads_docs_cons; [by apply reads_docs_all|by apply IH].
Qed.
End reading_documents.

(** Within the caller's obligations, an envelope of any shape is read
    back in outer mode as the tree of triples [doc_read] describes, and
    the input is consumed to its end. *)
Lemma documents_read_back subtype b ds w :
  sink w = EmptyString →
  envelope_ok subtype b = true →
  forallb (doc_ok b) ds = true →
  read_multipart (iter_lines (sink (write_envelope subtype b ds w).2)) None
  = (map doc_read ds, Done []).
Proof.
  intros Hw Henv Hds.
  assert (str_nonempty b = true ∧ occurs LF b = false
          ∧ occurs LF subtype = false) as (Hne & Hlf & Hls).
  { unfold envelope_ok in Henv.
    apply andb_true_iff in Henv as [[[? ?]%andb_true_iff ?]%andb_true_iff _].
    by rewrite <- !negb_true_iff. }
  unfold envelope_ok in Henv.
  destruct (parse_header (envelope_content_type subtype b))
    as [mimetype params] eqn:Hparse.
  apply andb_true_iff in Henv as [_ [Hm Hb%bool_decide_eq_true]%andb_true_iff].
  rewrite write_envelope_sink, Hw, str_app_nil_l, header_block_envelope.
  rewrite !str_app_assoc.
  replace ("Content-Type: " +:+ envelope_content_type subtype b +:+ EOL +:+ EOL
           +:+ String.concat EmptyString (map (doc_wire b) ds)
           +:+ "--" +:+ b +:+ "--" +:+ EOL)
    with ((("Content-Type: " +:+ envelope_content_type subtype b) +:+ EOL)
          +:+ ((EmptyString +:+ EOL)
          +:+ (String.concat EmptyString (map (doc_wire b) ds)
               +:+ ("--" +:+ b +:+ "--") +:+ EOL)))
    by (by rewrite !str_app_assoc).
  do 2 (rewrite iter_lines_EOL_line
          by (rewrite ?occurs_app; by rewrite ?envelope_content_type_no_LF)).
  rewrite docs_wire_lines.
  rewrite (iter_lines_EOL_single ("--" +:+ b +:+ "--"))
    by (rewrite !occurs_app; by rewrite Hlf).
  rewrite !str_app_nil_l, !str_app_assoc.
  unfold read_multipart.
  change (new_frame None) with (Frame None ∅ [] true true). cbn [run].
  rewrite loop_body_content_type by apply envelope_content_type_strip.
  cbv beta iota.
  assert (loop_body
            (Frame None (<["content-type" := envelope_content_type subtype b]> ∅)
                   [] true true) EOL
          = Sub (Frame None
                   (<["content-type" := envelope_content_type subtype b]> ∅)
                   [] true false) b) as ->.
  { unfold loop_body. simpl. rewrite lookup_insert_eq, Hparse, Hm, Hb. done. }
  cbv beta iota.
  change (new_frame (Some b)) with (Frame (Some b) ∅ [] false false).
  destruct (reads_docs_list b ds Hne Hlf Hds ∅ [] []
              [(Frame None
                  (<["content-type" := envelope_content_type subtype b]> ∅)
                  [] true false, [] ++ [])])
    as (h1 & buf1 & ys1 & Hs1 & _ & Hys1); [done|].
  rewrite run_scan, scan_app, Hs1, scan_close, Hys1 by done.
  reflexivity.
Qed.

Lemma doc_matches_read d : doc_matches d (doc_read d).
Proof.
  induction d as [mimetype content|subtype b ds IHds] using doc_nested_ind.
  - simpl. split; [done|]. split; [done|].
    destruct content as [|c content]; simpl.
    + exists EmptyString. repeat split; simpl; lia.
    + exists CR. repeat split; simpl; [lia|done].
  - simpl. split; [done|]. split; [done|].
    induction IHds as [|d ds Hd _ IH]; simpl; [done|]. by split.
Qed.

Lemma docs_match_read ds : Forall2 doc_matches ds (map doc_read ds).
Proof.
  induction ds as [|d ds IH]; constructor; [apply doc_matches_read|done].
Qed.

(** X10.  Within the caller's obligations, an envelope written with
    [write_multipart], any nesting of [open] ... [close] and [add], and
    [close], is read back in outer mode as the same tree, and the input is
    consumed to its end: one triple per written document in the written
    order; a multipart triple for every nested envelope, with its
    [Content-Type] as only header and its documents as nested sequence; a
    leaf triple for every [add], with the written [Content-Length] and
    [Content-Type], whose payload starts with the written content and is
    at most one byte longer. *)
Theorem documents_round_trip subtype b ds w :
  sink w = EmptyString →
  envelope_ok subtype b = true →
  forallb (doc_ok b) ds = true →
  ∃ parts,
    read_multipart (iter_lines (sink (write_envelope subtype b ds w).2)) None
    = (parts, Done [])
    ∧ Forall2 doc_matches ds parts.
Proof.
  intros Hw Henv Hds. exists (map doc_read ds).
  split; [by apply documents_read_back|apply docs_match_read].
Qed.

Lemma documents_round_trip_witness :
  ∃ parts,
    read_multipart
      (iter_lines
         (sink (write_envelope "mixed" "outer"
                  [ DLeaf "text/plain" "first";
                    DMulti "related" "inner"
                      [ DLeaf "application/json" EmptyString;
                        DMulti "mixed" "innermost" [];
                        DLeaf "text/plain" ("--outer" +:+ EOL +:+ "x") ];
                    DLeaf "text/plain" "last" ]
                  (empty_world (λ _, EmptyString))).2)) None
    = (parts, Done [])
    ∧ Forall2 doc_matches
        [ DLeaf "text/plain" "first";
          DMulti "related" "inner"
            [ DLeaf "application/json" EmptyString;
              DMulti "mixed" "innermost" [];
              DLeaf "text/plain" ("--outer" +:+ EOL +:+ "x") ];
          DLeaf "text/plain" "last" ]
        parts.
Proof.
  apply documents_round_trip; vm_compute; reflexivity.
Defined.

(** * [couchdb.client.uri] *)

Example uri_docstring :
  uri "http://example.org/" [Some "/_all_dbs"] []
  = Uri "http://example.org/_all_dbs".
Proof. reflexivity. Qed.

Lemma drop_last_app_one s c : drop_last (s +:+ String c EmptyString) = s.
Proof.
  induction s as [|a s IH]; [done|].
  rewrite str_app_cons. simpl. rewrite IH. by destruct s.
Qed.

Lemma str_nonempty_app_r s c t : str_nonempty (s +:+ String c t) = true.
Proof. by destruct s. Qed.

Lemma rstrip_slash_app s : rstrip_slash (s +:+ "/") = rstrip_slash s.
Proof.
  induction s as [|c s IH]; [done|].
  rewrite str_app_cons. simpl. by rewrite IH.
Qed.

Lemma strip_slash_app s : strip_slash (s +:+ "/") = strip_slash s.
Proof.
  unfold strip_slash. induction s as [|c s IH]; [done|].
  rewrite str_app_cons. simpl. destruct (Ascii.eqb c "/"); [done|].
  by rewrite <- str_app_cons, rstrip_slash_app.
Qed.

Lemma strip_slash_cons s : strip_slash ("/" +:+ s) = strip_slash s.
Proof. reflexivity. Qed.

Lemma uri_segments base path path' query :
  strip_slash <$> omap id path = strip_slash <$> omap id path' →
  uri base path query = uri base path' query.
Proof.
  intros Heq. unfold uri.
  rewrite !(list_fmap_compose strip_slash unicode_quote), Heq. done.
Qed.

(** X11.  [uri] is insensitive to the slashes at the joints: one slash at
    the end of the base, and a slash at the start or at the end of any
    path segment, wherever it stands in the path, do not change the
    result; a [None] segment is skipped wherever it stands. *)
Theorem uri_ignores_joint_slashes base s pre post query :
  (endswith "/" base = false →
   uri (base +:+ "/") (pre ++ post) query = uri base (pre ++ post) query)
  ∧ uri base (pre ++ Some ("/" +:+ s) :: post) query
    = uri base (pre ++ Some s :: post) query
  ∧ uri base (pre ++ Some (s +:+ "/") :: post) query
    = uri base (pre ++ Some s :: post) query
  ∧ uri base (pre ++ None :: post) query = uri base (pre ++ post) query.
Proof.
  split; [|split; [|split]].
  - intros Hb. unfold uri.
    rewrite str_nonempty_app_r, endswith_app, drop_last_app_one, Hb.
    by rewrite andb_false_r.
  - apply uri_segments. rewrite !omap_app, !fmap_app. simpl.
    by rewrite strip_slash_cons.
  - apply uri_segments. rewrite !omap_app, !fmap_app. simpl.
    by rewrite strip_slash_app.
  - apply uri_segments. by rewrite !omap_app.
Qed.

Lemma uri_ignores_joint_slashes_witness :
  uri ("http://example.org" +:+ "/") ([Some "db"] ++ [Some "doc"]) []
  = uri "http://example.org" ([Some "db"] ++ [Some "doc"]) [].
Proof.
  refine (proj1 (uri_ignores_joint_slashes "http://example.org" EmptyString
                   [Some "db"] [Some "doc"] []) _).
  reflexivity.
Defined.

(** X12.  A keyword argument of [uri] that contributes a parameter (a
    scalar, or a list with an item that is not [None]) makes the call
    raise: the query string is built by [unicode_urlencode], which reads
    its local name [params] before assigning it. *)
Theorem uri_with_query_raises base path query nv :
  nv ∈ query →
  query_params nv ≠ [] →
  uri base path query = UnboundLocalError.
Proof.
  intros Hin Hnv. unfold uri.
  destruct (query ≫= query_params) as [|p ps] eqn:Hparams; [|done].
  destruct (query_params nv) as [|p ps] eqn:Hq; [done|].
  assert (p ∈ query ≫= query_params) as Hp.
  { apply list_elem_of_bind. exists nv. split; [|done]. rewrite Hq. by left. }
  rewrite Hparams in Hp. by apply elem_of_nil in Hp.
Qed.

Lemma uri_with_query_raises_witness :
  uri "http://example.org/db" [Some "_view"]
      [("count", QNone); ("key", QScalar "k")]
  = UnboundLocalError.
Proof.
  apply (uri_with_query_raises _ _ _ ("key", QScalar "k")).
  - right. left.
  - discriminate.
Defined.

Lemma well_escaped_quote_char c t :
  well_escaped (quote_char c +:+ t) = well_escaped t.
Proof. destruct c as [[] [] [] [] [] [] [] []]; reflexivity. Qed.

Lemma percent_decode_quote_char c t :
  percent_decode (quote_char c +:+ t) = String c (percent_decode t).
Proof. destruct c as [[] [] [] [] [] [] [] []]; reflexivity. Qed.

Lemma well_escaped_quote s t : well_escaped (quote s +:+ t) = well_escaped t.
Proof.
  induction s as [|c s IH]; [done|]. simpl.
  by rewrite str_app_assoc, well_escaped_quote_char.
Qed.

Lemma percent_decode_quote s t :
  percent_decode (quote s +:+ t) = s +:+ percent_decode t.
Proof.
  induction s as [|c s IH]; [done|]. simpl.
  by rewrite str_app_assoc, percent_decode_quote_char, IH.
Qed.

Lemma well_escaped_slash t : well_escaped ("/" +:+ t) = well_escaped t.
Proof. reflexivity. Qed.

Lemma percent_decode_slash t :
  percent_decode ("/" +:+ t) = "/" +:+ percent_decode t.
Proof. reflexivity. Qed.

Lemma slash_join x (xs : list string) :
  "/" +:+ String.concat "/" (x :: xs)
  = String.concat EmptyString ((λ s, "/" +:+ s) <$> (x :: xs)).
Proof.
  revert x. induction xs as [|y xs IH]; intros x.
  - reflexivity.
  - rewrite fmap_cons, concat_cons, <- IH.
    change (String.concat "/" (x :: y :: xs))
      with (x +:+ "/" +:+ String.concat "/" (y :: xs)).
    by rewrite !str_app_assoc.
Qed.

(** X13.  Without query parameters [uri] returns the base, short of one
    final slash, followed for every path segment in order by a slash and
    the segment, stripped of its outer slashes and quoted.  That path is
    in escaped form: every byte is a letter, a digit, one of [_ . - /], or
    a percent sign followed by two upper-case hexadecimal digits (a
    percent sign of a segment is itself escaped); and resolving its
    escapes gives back the stripped segments, each after its slash, so
    that no byte of a segment is lost or left unescaped. *)
Theorem uri_path_is_escaped base path :
  let tail := String.concat EmptyString
                ((λ s, "/" +:+ unicode_quote (strip_slash s))
                   <$> omap id path) in
  uri base path [] = Uri (uri_base base +:+ tail)
  ∧ well_escaped tail = true
  ∧ percent_decode tail
    = String.concat EmptyString
        ((λ s, "/" +:+ strip_slash s) <$> omap id path).
Proof.
  intros tail. split; [|split].
  - unfold uri, uri_base, tail. simpl mbind. cbv iota.
    rewrite (list_fmap_compose (λ s, unicode_quote (strip_slash s))
               (λ s, "/" +:+ s)).
    destruct ((λ s, unicode_quote (strip_slash s)) <$> omap id path)
      as [|x xs].
    + simpl. unfold join. simpl. by rewrite str_app_nil_r.
    + rewrite <- slash_join.
      change (String.concat "/" (EmptyString :: x :: xs))
        with ("/" +:+ String.concat "/" (x :: xs)).
      reflexivity.
  - unfold tail. induction (omap id path) as [|x xs IH]; [done|].
    rewrite fmap_cons, concat_cons. unfold unicode_quote in *.
    by rewrite str_app_assoc, well_escaped_slash, well_escaped_quote.
  - unfold tail. induction (omap id path) as [|x xs IH]; [done|].
    rewrite !fmap_cons, !concat_cons. unfold unicode_quote in *.
    rewrite str_app_assoc, percent_decode_slash, percent_decode_quote, IH.
    by rewrite !str_app_assoc.
Qed.

(** * A missing terminal boundary *)

Lemma write_unclosed_sink subtype b ds w :
  sink (write_unclosed subtype b ds w).2
  = sink w +:+
    header_block (<["Content-Type" := envelope_content_type subtype b]> ∅) +:+
    String.concat EmptyString (map (doc_wire b) ds).
Proof.
  unfold write_unclosed, write_multipart. rewrite !run_bind.
  destruct (MultipartWriter_spec None subtype (Some b) w) as (Hself & Hs & _).
  rewrite write_docs_sink, Hs, Hself. simpl.
  by rewrite !str_app_assoc.
Qed.

(** An envelope whose final [close] was never written is read back like
    the closed one. *)
Lemma unclosed_read_back subtype b ds w :
  sink w = EmptyString →
  envelope_ok subtype b = true →
  forallb (doc_ok b) ds = true →
  read_multipart (iter_lines (sink (write_unclosed subtype b ds w).2)) None
  = (map doc_read ds, Done []).
Proof.
  intros Hw Henv Hds.
  assert (str_nonempty b = true ∧ occurs LF b = false
          ∧ occurs LF subtype = false) as (Hne & Hlf & Hls).
  { unfold envelope_ok in Henv.
    apply andb_true_iff in Henv as [[[? ?]%andb_true_iff ?]%andb_true_iff _].
    by rewrite <- !negb_true_iff. }
  unfold envelope_ok in Henv.
  destruct (parse_header (envelope_content_type subtype b))
    as [mimetype params] eqn:Hparse.
  apply andb_true_iff in Henv as [_ [Hm Hb%bool_decide_eq_true]%andb_true_iff].
  rewrite write_unclosed_sink, Hw, str_app_nil_l, header_block_envelope.
  rewrite !str_app_assoc.
  replace ("Content-Type: " +:+ envelope_content_type subtype b +:+ EOL +:+ EOL
           +:+ String.concat EmptyString (map (doc_wire b) ds))
    with ((("Content-Type: " +:+ envelope_content_type subtype b) +:+ EOL)
          +:+ ((EmptyString +:+ EOL)
          +:+ String.concat EmptyString (map (doc_wire b) ds)))
    by (by rewrite !str_app_assoc).
  do 2 (rewrite iter_lines_EOL_line
          by (rewrite ?occurs_app; by rewrite ?envelope_content_type_no_LF)).
  rewrite !str_app_nil_l, !str_app_assoc.
  unfold read_multipart.
  change (new_frame None) with (Frame None ∅ [] true true). cbn [run].
  rewrite loop_body_content_type by apply envelope_content_type_strip.
  cbv beta iota.
  assert (loop_body
            (Frame None (<["content-type" := envelope_content_type subtype b]> ∅)
                   [] true true) EOL
          = Sub (Frame None
                   (<["content-type" := envelope_content_type subtype b]> ∅)
                   [] true false) b) as ->.
  { unfold loop_body. simpl. rewrite lookup_insert_eq, Hparse, Hm, Hb. done. }
  cbv beta iota.
  change (new_frame (Some b)) with (Frame (Some b) ∅ [] false false).
  destruct (reads_docs_list b ds Hne Hlf Hds ∅ [] []
              [(Frame None
                  (<["content-type" := envelope_content_type subtype b]> ∅)
                  [] true false, [] ++ [])])
    as (h1 & buf1 & ys1 & Hs1 & _ & Hys1); [done|].
  rewrite run_scan, Hs1. cbn [run at_eof]. simpl is_None. cbv iota.
  by rewrite Hys1.
Qed.

(** X14.  The terminal boundary line of the outermost envelope is not
    needed: within the caller's obligations, an envelope whose final
    [close] was never written yields exactly the parts of the closed one,
    without an exception, the last part being yielded when the input
    ends. *)
Theorem unclosed_envelope_reads_the_same subtype b ds w :
  sink w = EmptyString →
  envelope_ok subtype b = true →
  forallb (doc_ok b) ds = true →
  read_multipart (iter_lines (sink (write_unclosed subtype b ds w).2)) None
  = read_multipart (iter_lines (sink (write_envelope subtype b ds w).2)) None.
Proof.
  intros Hw Henv Hds.
  by rewrite unclosed_read_back, documents_read_back.
Qed.

Lemma unclosed_envelope_reads_the_same_witness :
  read_multipart
    (iter_lines
       (sink (write_unclosed "mixed" "outer"
                [ DLeaf "text/plain" "first"; DLeaf "text/plain" "last" ]
                (empty_world (λ _, EmptyString))).2)) None
  = read_multipart
      (iter_lines
         (sink (write_envelope "mixed" "outer"
                  [ DLeaf "text/plain" "first"; DLeaf "text/plain" "last" ]
                  (empty_world (λ _, EmptyString))).2)) None.
Proof.
  apply unclosed_envelope_reads_the_same; vm_compute; reflexivity.
Defined.
